(** * Transaction reliability engine of the Solana token manager

    A shallow embedding of the submission/confirmation helpers
    (transaction-helper.ts, transaction-utility.ts, token-helper.ts),
    of the connection pool (connection-helper.ts), of the confirmation
    poller of token-creator.tsx and of the transaction history store,
    followed by the properties of the specification that concern them. *)

From Stdlib Require Import ZArith QArith Qminmax Qpower String Ascii Lia Lqa.
From stdpp Require Import gmap strings list pretty.

(** ** JavaScript values shared by all modules *)

Module Js.

(** [String.prototype.includes]: [needle] occurs somewhere in [hay]. *)
Fixpoint includes (needle hay : string) : bool :=
  String.prefix needle hay ||
  match hay with
  | EmptyString => false
  | String _ rest => includes needle rest
  end.

(** A thrown value.  [message] is its [message] property ([None] when the
    property is undefined) and [to_string] what [toString()] returns. *)
Record JsError := mkError {
  message : option string;
  to_string : string
}.

(** [new Error(msg)]; its [toString()] is the name alone when the message
    is empty. *)
Definition new_Error (msg : string) : JsError :=
  {| message := Some msg;
     to_string := match msg with
                  | EmptyString => "Error"
                  | _ => String.append "Error: " msg
                  end |}.

(** [error.message?.includes(s)]: undefined (falsy) without a message. *)
Definition message_includes (e : JsError) (s : string) : bool :=
  match message e with
  | Some m => includes s m
  | None => false
  end.

(** How an async function settles: its promise resolves with a value or
    rejects with the thrown error. *)
Inductive Outcome (A : Type) :=
| Return (v : A)
| Throw (e : JsError).
Arguments Return {A} v.
Arguments Throw {A} e.

End Js.
Export Js.

(** ** The ledger as seen by one request (shared by both retry loops) *)

Module Ledger.

(** What the race between [connection.confirmTransaction] and the
    [maxTimeout] timer yields. *)
Inductive ConfirmOutcome :=
| ConfirmedOk                     (* resolved, [value.err] is null *)
| ConfirmedErr (err_json : string) (* resolved, [JSON.stringify(value.err)] *)
| ConfirmThrows (e : JsError)      (* [confirmTransaction] rejected with [e] *)
| ConfirmTimeout.                 (* the timer fired first *)

(** What the outside world does during one attempt. *)
Inductive AttemptEnv :=
| BlockhashThrows (e : JsError)   (* [getLatestBlockhash] rejects *)
| SignThrows (e : JsError)        (* signing or serialising throws *)
| SendThrows (e : JsError)        (* the send call rejects *)
| SendReturns (sig : string) (c : ConfirmOutcome).

(** Observable steps of a run, tagged with the attempt number. *)
Inductive Event :=
| EvBlockhash (a : Z)             (* fresh blockhash requested *)
| EvSend (a : Z)                  (* sendRawTransaction / wallet.sendTransaction invoked *)
| EvSignature (a : Z) (sig : string) (* the send returned [sig] *)
| EvConfirmStart (a : Z)          (* confirmTransaction started, timer armed *)
| EvConfirmDone (a : Z)           (* confirmTransaction settled, timer cleared *)
| EvTimerFired (a : Z)            (* timer fired, confirmTransaction still pending *)
| EvCatch (a : Z) (e : JsError)   (* the catch block received [e] *)
| EvSleep (a : Z) (ms : Z)        (* awaited [setTimeout(resolve, ms)] *)
| EvToastSuccess
| EvToastError (text : string).

Record Run := mkRun {
  trace : list Event;
  result : Outcome string
}.

Definition prepend (evs : list Event) (r : option Run) : option Run :=
  match r with
  | Some r' => Some {| trace := evs ++ trace r'; result := result r' |}
  | None => None
  end.

(** The value the [confirmationPromise] rejects with, [None] when it
    resolves (lines 83-116 of transaction-helper.ts, 90-123 of
    transaction-utility.ts: the two texts are the same). *)
Definition confirmation_error (c : ConfirmOutcome) : option JsError :=
  match c with
  | ConfirmedOk => None
  | ConfirmedErr j =>
      Some (new_Error (String.append "Transaction confirmed but failed: " j))
  | ConfirmThrows e => Some e
  | ConfirmTimeout => Some (new_Error "Transaction confirmation timeout")
  end.

Definition confirmation_events (a : Z) (c : ConfirmOutcome) : list Event :=
  match c with
  | ConfirmTimeout => [EvConfirmStart a; EvTimerFired a]
  | _ => [EvConfirmStart a; EvConfirmDone a]
  end.

(** The body of the [try] block of one attempt: the events, the value of
    the variable [signature] afterwards and the error thrown, if any. *)
Definition try_block (env : Z -> AttemptEnv) (a : Z) (signature : string)
  : list Event * string * option JsError :=
  match env a with
  | BlockhashThrows e => ([EvBlockhash a], signature, Some e)
  | SignThrows e => ([EvBlockhash a], signature, Some e)
  | SendThrows e => ([EvBlockhash a; EvSend a], signature, Some e)
  | SendReturns sig c =>
      ([EvBlockhash a; EvSend a; EvSignature a sig] ++ confirmation_events a c,
       sig, confirmation_error c)
  end.

(** [isBlockhashError] of both catch blocks. *)
Definition isBlockhashError (error : JsError) : bool :=
  message_includes error "block height exceeded" ||
  message_includes error "blockhash not found" ||
  message_includes error "invalid blockhash".

(** [Math.min(1000 * Math.pow(2, attempt - 1), 8000)]. *)
Definition backoff_delay (attempt : Z) : Z :=
  Z.min (1000 * 2 ^ (attempt - 1)) 8000.

(** What a catch block does with the error of an attempt: wait and go
    round the loop again, or show [toast] with [toast.error] and rethrow. *)
Inductive CatchDecision :=
| Retry (delay : Z)
| Rethrow (toast : string).

Record LoopState := mkLoop {
  attempt : Z;
  signature : string;
  lastError : option JsError
}.

Definition initial : LoopState :=
  {| attempt := 0; signature := ""; lastError := None |}.

(** [throw lastError || new Error('Transaction failed for unknown reason')]. *)
Definition after_loop (st : LoopState) : Run :=
  {| trace := [];
     result := Throw (match lastError st with
                      | Some e => e
                      | None => new_Error "Transaction failed for unknown reason"
                      end) |}.

(** [message.toLowerCase()], on the ASCII letters. *)
Definition lower_ascii (c : ascii) : ascii :=
  let n := nat_of_ascii c in
  if (65 <=? n)%nat && (n <=? 90)%nat then ascii_of_nat (n + 32) else c.

Fixpoint toLowerCase (s : string) : string :=
  match s with
  | EmptyString => EmptyString
  | String c rest => String (lower_ascii c) (toLowerCase rest)
  end.

(** [error.message || error.toString()]: an empty message is falsy. *)
Definition message_or_toString (e : JsError) : string :=
  match message e with
  | Some EmptyString | None => to_string e
  | Some m => m
  end.

(** [`Transaction error: ${message.slice(0, 100)}${message.length > 100 ? '...' : ''}`] *)
Definition generic_message (m : string) : string :=
  String.append "Transaction error: "
    (String.append (String.substring 0 100 m)
       (if (100 <? String.length m)%nat then "..." else "")).

End Ledger.
Export Ledger.

(** ** transaction-helper.ts *)

Module TransactionHelper.


(** [getSolanaErrorMessage]; [None] stands for a falsy argument. *)
Definition getSolanaErrorMessage (error : option JsError) : string :=
  match error with
  | None => "Unknown error"
  | Some e =>
      let message := message_or_toString e in
      if includes "block height exceeded" message then
        "Transaction expired. Please try again."
      else if includes "Token Account not found" message then
        "Token account not found. It may need to be created first."
      else if includes "insufficient funds" message then
        "Insufficient funds for transaction."
      else if includes "rejected" message then
        "Transaction rejected by user."
      else if includes "This transaction has already been processed" message then
        "This transaction was already processed."
      else if includes "invalid account owner" message then
        "Invalid account owner."
      else if includes "timeout" (toLowerCase message) then
        "Transaction timed out. Network may be congested."
      else generic_message message
  end.

(** The catch block, for the error of attempt [attempt]. *)
Definition catch_block (maxRetries attempt : Z) (error : JsError)
  : CatchDecision :=
  if isBlockhashError error && (attempt <? maxRetries)%Z then
    Retry (backoff_delay attempt)
  else if message_includes error "Token Account not found" then
    Rethrow "Token account not found. Account may need to be created first."
  else if message_includes error "insufficient funds" then
    Rethrow "Insufficient funds for transaction."
  else if (attempt >=? maxRetries)%Z then
    Rethrow (String.append "Transaction failed after "
               (String.append (pretty maxRetries) " attempts."))
  else
    Rethrow (getSolanaErrorMessage (Some error)).

(** The [while (attempt < maxRetries)] loop; [fuel] bounds the number of
    iterations still allowed. *)
Fixpoint loop (env : Z -> AttemptEnv) (maxRetries : Z) (fuel : nat)
    (st : LoopState) : option Run :=
  match fuel with
  | O => None
  | S fuel' =>
      if (attempt st <? maxRetries)%Z then
        let a := (attempt st + 1)%Z in
        let '(evs, sig, err) := try_block env a (signature st) in
        match err with
        | None =>
            Some {| trace := evs ++ [EvToastSuccess]; result := Return sig |}
        | Some error =>
            match catch_block maxRetries a error with
            | Retry d =>
                prepend (evs ++ [EvCatch a error; EvSleep a d])
                  (loop env maxRetries fuel'
                     {| attempt := a; signature := sig;
                        lastError := Some error |})
            | Rethrow t =>
                Some {| trace := evs ++ [EvCatch a error; EvToastError t];
                        result := Throw error |}
            end
        end
      else Some (after_loop st)
  end.

Definition sendAndConfirmTransaction (env : Z -> AttemptEnv)
    (maxRetries : Z) : option Run :=
  loop env maxRetries (S (Z.to_nat maxRetries)) initial.

End TransactionHelper.

(** ** transaction-utility.ts *)

Module TransactionUtility.

(** [getErrorMessage]; [None] stands for a falsy argument. *)
Definition getErrorMessage (error : option JsError) : string :=
  match error with
  | None => "Unknown error"
  | Some e =>
      let message := message_or_toString e in
      if includes "block height exceeded" message then
        "Transaction took too long to confirm. Please try again."
      else if includes "blockhash not found" message then
        "Transaction expired. Please try again."
      else if includes "insufficient funds" message then
        "Insufficient funds for transaction."
      else if includes "rejected" message then
        "Transaction rejected by user."
      else if includes "user rejected" message then
        "You declined the transaction. Please try again."
      else if includes "already in use" message then
        "This transaction was already processed."
      else if includes "invalid account owner" message then
        "Invalid account owner."
      else if includes "timeout" (toLowerCase message) then
        "Network timeout. Solana may be congested, please try again."
      else generic_message message
  end.

(** The [while (attempt < maxRetries && !success)] loop.  [success] is
    only set on the path that returns at once, so it is false at every
    test of the condition.  [fuel] bounds the number of iterations still
    allowed. *)
Fixpoint loop (env : Z -> AttemptEnv) (maxRetries : Z) (fuel : nat)
    (st : LoopState) : option Run :=
  match fuel with
  | O => None
  | S fuel' =>
      let success := false in
      if (attempt st <? maxRetries)%Z && negb success then
        let a := (attempt st + 1)%Z in
        let '(evs, sig, err) := try_block env a (signature st) in
        match err with
        | None =>
            Some {| trace := evs ++ [EvToastSuccess]; result := Return sig |}
        | Some error =>
            if (a <? maxRetries)%Z && isBlockhashError error then
              prepend (evs ++ [EvCatch a error; EvSleep a (backoff_delay a)])
                (loop env maxRetries fuel'
                   {| attempt := a; signature := sig;
                      lastError := Some error |})
            else
              Some {| trace := evs ++ [EvCatch a error;
                                       EvToastError (getErrorMessage (Some error))];
                      result := Throw error |}
        end
      else Some (after_loop st)
  end.

Definition sendTransactionWithRetry (env : Z -> AttemptEnv)
    (maxRetries : Z) : option Run :=
  loop env maxRetries (S (Z.to_nat maxRetries)) initial.

End TransactionUtility.

(** ** token-helper.ts *)

Module TokenHelper.

(** A public key, by its base-58 text. *)
Definition PublicKey := string.

(** What [connection.getAccountInfo] answers. *)
Inductive AccountInfo :=
| AccountFound
| AccountMissing                 (* resolves with null *)
| AccountLookupThrows (e : JsError).

(** Reading [includes] off an undefined [message]. *)
Definition includes_of_undefined : JsError :=
  {| message := Some "Cannot read properties of undefined (reading 'includes')";
     to_string := "TypeError: Cannot read properties of undefined (reading 'includes')" |}.

Section GetOrCreate.

(** [getAssociatedTokenAddress(mint, owner, false, TOKEN_PROGRAM_ID,
    ASSOCIATED_TOKEN_PROGRAM_ID)]: a pure derivation, which throws for
    an owner off the curve. *)
Variable getAssociatedTokenAddress : PublicKey -> PublicKey -> Outcome PublicKey.

(** The outer [catch (error: any)] block. *)
Definition catch_block (mint owner : PublicKey) (evs : list Event)
    (error : JsError) : Run :=
  match message error with
  | None =>
      {| trace := evs; result := Throw includes_of_undefined |}
  | Some m =>
      if negb (includes "already in use" m) then
        {| trace := evs ++ [EvToastError
             (String.append "Failed to create token account: " m)];
           result := Throw error |}
      else
        match getAssociatedTokenAddress mint owner with
        | Return associatedTokenAddress =>
            {| trace := evs; result := Return associatedTokenAddress |}
        | Throw e => {| trace := evs; result := Throw e |}
        end
  end.

(** The call [sendAndConfirmTransaction(connection, transaction, [payer],
    { commitment: 'confirmed', skipPreflight: false, maxRetries: 3 })]
    and what follows it in the [try] block. *)
Definition create_account (env : Z -> AttemptEnv) (mint owner : PublicKey)
    (associatedTokenAddress : PublicKey) : option Run :=
  match TransactionHelper.sendAndConfirmTransaction env 3 with
  | None => None
  | Some sent =>
      match result sent with
      | Return _ =>
          Some {| trace := trace sent ++ [EvToastSuccess];
                  result := Return associatedTokenAddress |}
      | Throw error => Some (catch_block mint owner (trace sent) error)
      end
  end.

Definition getOrCreateAssociatedTokenAccount (info : AccountInfo)
    (env : Z -> AttemptEnv) (mint owner : PublicKey) : option Run :=
  match getAssociatedTokenAddress mint owner with
  | Throw error => Some (catch_block mint owner [] error)
  | Return associatedTokenAddress =>
      match info with
      | AccountFound =>
          Some {| trace := []; result := Return associatedTokenAddress |}
      | AccountMissing | AccountLookupThrows _ =>
          create_account env mint owner associatedTokenAddress
      end
  end.

End GetOrCreate.

End TokenHelper.

(** ** connection-helper.ts *)

Module ConnectionHelper.

(** A [Connection] object.  [conn_id] is its identity: the number of
    connections constructed before it. *)
Record Connection := mkConnection {
  conn_id : nat;
  conn_endpoint : string;
  conn_commitment : string
}.

(** The module-level variables, and the count of objects constructed. *)
Record State := mkState {
  connectionCache : gmap string Connection;
  connectionPool : list Connection;
  connectionInitialized : bool;
  constructed : nat
}.

Definition CONNECTION_POOL_SIZE : Z := 2.

Definition empty_state : State :=
  {| connectionCache := ∅; connectionPool := [];
     connectionInitialized := false; constructed := 0 |}.

(** [connectionPool.push(new Connection(endpoint, {commitment: 'confirmed', ...}))]
    when the constructor returns. *)
Definition push_connection (endpoint : string) (st : State) : State :=
  {| connectionCache := connectionCache st;
     connectionPool := connectionPool st ++
       [{| conn_id := constructed st; conn_endpoint := endpoint;
           conn_commitment := "confirmed" |}];
     connectionInitialized := connectionInitialized st;
     constructed := S (constructed st) |}.

(** [for (let i = 0; i < size; i++) connectionPool.push(...)], [n] rounds. *)
Fixpoint push_connections (n : nat) (endpoint : string) (st : State) : State :=
  match n with
  | O => st
  | S n' => push_connections n' endpoint (push_connection endpoint st)
  end.

Section Window.

(** [typeof window !== 'undefined']: fixed for the life of the process. *)
Variable has_window : bool.

(** Whether [new Connection(endpoint, {commitment, ...})] returns an
    object.  The constructor belongs to the ledger client; it throws a
    TypeError for an endpoint it refuses (one that does not start with
    http: or https:). *)
Variable constructible : string -> string -> bool.

(** The module-level variables after [initConnectionPool(endpoint, size)]
    for an integer [size], whether the call returned or threw.  The flag
    is set before the loop; when the constructor throws in the first
    round, the call ends there with the flag set and nothing pushed.  The
    timer it sets calls [preWarmConnection] later: see [PreWarm]. *)
Definition initConnectionPool (endpoint : string) (size : Z) (st : State)
  : State :=
  if negb has_window then st
  else if connectionInitialized st then st
  else
    let marked :=
      {| connectionCache := connectionCache st;
         connectionPool := connectionPool st;
         connectionInitialized := true;
         constructed := constructed st |} in
    if constructible endpoint "confirmed"
    then push_connections (Z.to_nat size) endpoint marked
    else marked.

(** Whether that call throws: the loop is entered and the constructor
    refuses the endpoint. *)
Definition initConnectionPool_throws (endpoint : string) (size : Z)
    (st : State) : bool :=
  has_window && negb (connectionInitialized st) && (0 <? size)%Z &&
  negb (constructible endpoint "confirmed").

(** [preWarmConnection(endpoint)]: [initConnectionPool(endpoint)] with
    the default size, inside a [try] whose [catch] swallows the error. *)
Definition preWarmConnection (endpoint : string) (st : State) : State :=
  initConnectionPool endpoint 2 st.

(** [`${endpoint}-${commitment}`] *)
Definition cache_key (endpoint commitment : string) : string :=
  String.append endpoint (String.append "-" commitment).

(** [getCachedConnection(endpoint, commitment)]: the connection
    returned, [None] when the constructor throws (nothing is stored
    then). *)
Definition getCachedConnection (endpoint commitment : string) (st : State)
  : option Connection * State :=
  match connectionPool st with
  | first :: _ => (Some first, st)
  | [] =>
      let cacheKey := cache_key endpoint commitment in
      match connectionCache st !! cacheKey with
      | Some c => (Some c, st)
      | None =>
          if constructible endpoint commitment then
            let c := {| conn_id := constructed st; conn_endpoint := endpoint;
                        conn_commitment := commitment |} in
            (Some c,
             {| connectionCache := <[cacheKey := c]> (connectionCache st);
                connectionPool := connectionPool st;
                connectionInitialized := connectionInitialized st;
                constructed := S (constructed st) |})
          else (None, st)
      end
  end.

(** Calls a client of the module can make, in any order. *)
Inductive Op :=
| Init (endpoint : string) (size : Z)
| PreWarm (endpoint : string)
| Get (endpoint commitment : string).

(** One call: the new state and the connection handed out, if any
    (none by the two initialising calls, and none by a call that
    throws). *)
Definition step (op : Op) (st : State) : option Connection * State :=
  match op with
  | Init endpoint size => (None, initConnectionPool endpoint size st)
  | PreWarm endpoint => (None, preWarmConnection endpoint st)
  | Get endpoint commitment => getCachedConnection endpoint commitment st
  end.

(** Whether the call throws to its caller. *)
Definition throws (op : Op) (st : State) : bool :=
  match op with
  | Init endpoint size => initConnectionPool_throws endpoint size st
  | PreWarm _ => false
  | Get endpoint commitment =>
      match fst (getCachedConnection endpoint commitment st) with
      | Some _ => false
      | None => true
      end
  end.

(** A sequence of calls: what each call handed out, and the final state. *)
Fixpoint run (ops : list Op) (st : State) : list (option Connection) * State :=
  match ops with
  | [] => ([], st)
  | op :: rest =>
      let '(r, st') := step op st in
      let '(rs, st'') := run rest st' in
      (r :: rs, st'')
  end.

(** The size an initialising call asks for. *)
Definition requested_size (op : Op) : option Z :=
  match op with
  | Init _ size => Some size
  | PreWarm _ => Some 2%Z
  | Get _ _ => None
  end.

(** A pool is only filled by the call that sets the flag. *)
Definition consistent (st : State) : Prop :=
  connectionInitialized st = false -> connectionPool st = [].

Definition is_get (op : Op) : bool :=
  match op with Get _ _ => true | _ => false end.

(** The largest size any initialising call of the sequence asks for. *)
Fixpoint largest_request (ops : list Op) : Z :=
  match ops with
  | [] => 0
  | op :: rest =>
      match requested_size op with
      | Some size => Z.max size (largest_request rest)
      | None => largest_request rest
      end
  end.

End Window.

End ConnectionHelper.

(** ** token-creator.tsx: the confirmation poller *)

Module TokenCreator.

(** [RpcResponseAndContext<SignatureResult>], by its [value.err]
    ([None] for null). *)
Record SignatureResult := mkResult {
  slot : Z;
  err : option string
}.

(** How the poller settles. *)
Inductive Settled :=
| Confirmation (r : SignatureResult)
| Thrown (e : JsError).

Inductive PollEvent :=
| EvPoll (retries : nat)              (* confirmTransaction(signature, 'confirmed') *)
| EvWait (retries : nat) (delay : Q). (* awaited setTimeout(resolve, delay) *)

(** [Math.min(1000 * Math.pow(1.5, retries), 10000)].  Up to retries = 5
    the powers and products are exact doubles; from 6 on the product is
    above 10000 whatever the rounding, so that the minimum is the cap:
    the rational value is the double the code computes. *)
Definition poll_delay (retries : nat) : Q :=
  Qmin (1000 * (3 # 2) ^ Z.of_nat retries) 10000.

Record PollRun := mkPollRun {
  polls : list PollEvent;
  settled : Settled
}.

Definition timed_out (timeoutMs : Z) : JsError :=
  new_Error (String.append "Transaction confirmation timed out after "
               (String.append (pretty timeoutMs) "ms")).

Section Poller.

(** The outside world: what [Date.now()] reads at the start and at the
    test before the poll numbered [retries], and what that poll
    answers ([None] when [confirmTransaction] rejects). *)
Variable startTime : Z.
Variable now : nat -> Z.
Variable answer : nat -> option SignatureResult.

Variable timeoutMs : Z.

(** The [while (!done && Date.now() - startTime < timeoutMs)] loop from
    the state [done = false], [confirmResult = null], and the
    statements after it. *)
Fixpoint loop (fuel : nat) (retries : nat) : option PollRun :=
  match fuel with
  | O => None
  | S fuel' =>
      if (now retries - startTime <? timeoutMs)%Z then
        match answer retries with
        | Some confirmResult =>
            Some {| polls := [EvPoll retries];
                    settled := Confirmation confirmResult |}
        | None =>
            match loop fuel' (S retries) with
            | Some r =>
                Some {| polls := EvPoll retries
                                 :: EvWait retries (poll_delay retries)
                                 :: polls r;
                        settled := settled r |}
            | None => None
            end
        end
      else
        Some {| polls := []; settled := Thrown (timed_out timeoutMs) |}
  end.

Definition confirmTransactionWithExponentialBackoff (fuel : nat)
  : option PollRun :=
  loop fuel 0.

End Poller.

End TokenCreator.

(** ** transaction-store.ts *)

Module TransactionStore.

Inductive TransactionType := create | mint | send.
Inductive TransactionStatus := success | error | pending.

Record Transaction := mkTransaction {
  id : string;
  type : TransactionType;
  tokenName : option string;
  tokenSymbol : option string;
  amount : option Q;
  mintAddress : string;
  recipient : option string;
  timestamp : Z;
  status : TransactionStatus
}.

Record Store := mkStore { transactions : list Transaction }.

Definition empty_store : Store := {| transactions := [] |}.

(** [[transaction, ...state.transactions].slice(0, 50)] *)
Definition addTransaction (transaction : Transaction) (state : Store) : Store :=
  {| transactions := take 50 (transaction :: transactions state) |}.

Definition clearTransactions (state : Store) : Store :=
  {| transactions := [] |}.

Inductive Action :=
| Add (transaction : Transaction)
| Clear.

Definition apply (state : Store) (a : Action) : Store :=
  match a with
  | Add transaction => addTransaction transaction state
  | Clear => clearTransactions state
  end.

(** The store after the actions, applied left to right. *)
Definition after (actions : list Action) (state : Store) : Store :=
  fold_left apply actions state.

(** The transactions added since the last [Clear], oldest first. *)
Fixpoint added_since_clear (actions : list Action) (acc : list Transaction)
  : list Transaction :=
  match actions with
  | [] => acc
  | Add transaction :: rest => added_since_clear rest (acc ++ [transaction])
  | Clear :: rest => added_since_clear rest []
  end.

End TransactionStore.

(** ** The retry loops as a relation, and the vocabulary of the properties *)

Module RetryLoop.

(** The catch block of [sendTransactionWithRetry], as a decision. *)
Definition utility_catch (maxRetries attempt : Z) (error : JsError)
  : CatchDecision :=
  if (attempt <? maxRetries)%Z && isBlockhashError error then
    Retry (backoff_delay attempt)
  else Rethrow (TransactionUtility.getErrorMessage (Some error)).

(** A run of a loop whose catch block decides by [catch], from the loop
    state [st] to the settled promise. *)
Inductive Steps (catch : Z -> JsError -> CatchDecision)
    (env : Z -> AttemptEnv) (maxRetries : Z) : LoopState -> Run -> Prop :=
| steps_exit st :
    (maxRetries <= attempt st)%Z ->
    Steps catch env maxRetries st (after_loop st)
| steps_return st evs sig :
    (attempt st < maxRetries)%Z ->
    try_block env (attempt st + 1) (signature st) = (evs, sig, None) ->
    Steps catch env maxRetries st
      {| trace := evs ++ [EvToastSuccess]; result := Return sig |}
| steps_rethrow st evs sig error t :
    (attempt st < maxRetries)%Z ->
    try_block env (attempt st + 1) (signature st) = (evs, sig, Some error) ->
    catch (attempt st + 1)%Z error = Rethrow t ->
    Steps catch env maxRetries st
      {| trace := evs ++ [EvCatch (attempt st + 1) error; EvToastError t];
         result := Throw error |}
| steps_retry st evs sig error d r :
    (attempt st < maxRetries)%Z ->
    try_block env (attempt st + 1) (signature st) = (evs, sig, Some error) ->
    catch (attempt st + 1)%Z error = Retry d ->
    Steps catch env maxRetries
      {| attempt := attempt st + 1; signature := sig;
         lastError := Some error |} r ->
    Steps catch env maxRetries st
      {| trace := (evs ++ [EvCatch (attempt st + 1) error;
                           EvSleep (attempt st + 1) d]) ++ trace r;
         result := result r |}.

(** Number of invocations of the send operation in a trace. *)
Fixpoint sends (t : list Event) : nat :=
  match t with
  | [] => 0
  | EvSend _ :: rest => S (sends rest)
  | _ :: rest => sends rest
  end.

(** Whenever a send starts, every attempt submitted before it has been
    caught, and every confirmation started before it has settled. *)
Definition sequential (t : list Event) : Prop :=
  forall pre b post, t = pre ++ EvSend b :: post ->
    forall a,
      (In (EvSend a) pre -> exists e, In (EvCatch a e) pre) /\
      (In (EvConfirmStart a) pre -> In (EvConfirmDone a) pre).

(** The last signature a send returned in a trace. *)
Fixpoint last_signature (t : list Event) (acc : option string)
  : option string :=
  match t with
  | [] => acc
  | EvSignature _ sig :: rest => last_signature rest (Some sig)
  | _ :: rest => last_signature rest acc
  end.

(** The caller can read [sig] off what the call settled with: it is the
    value returned, or it occurs in the message of the error thrown. *)
Definition surfaces (sig : string) (o : Outcome string) : bool :=
  match o with
  | Return v => String.eqb v sig
  | Throw e => message_includes e sig
  end.

(** The attempt an event belongs to. *)
Definition tag (ev : Event) : option Z :=
  match ev with
  | EvBlockhash a | EvSend a | EvSignature a _ | EvConfirmStart a
  | EvConfirmDone a | EvTimerFired a | EvCatch a _ | EvSleep a _ => Some a
  | EvToastSuccess | EvToastError _ => None
  end.

(** The events a [try] block of attempt [a] can emit. *)
Definition block_event (a : Z) (ev : Event) : Prop :=
  match ev with
  | EvBlockhash b | EvSend b | EvSignature b _ | EvConfirmStart b
  | EvConfirmDone b | EvTimerFired b => b = a
  | _ => False
  end.

Definition timeout_error : JsError :=
  new_Error "Transaction confirmation timeout".

End RetryLoop.
Import RetryLoop.

(** ** Concrete requests used as examples *)

Module Scenarios.

Definition sigA : string :=
  "5VERv8NMvzbJMEkV8xnrLkEaWRtSz9CosKDYjCJjBRnbJLgp8uirBgmQpjKhoR4tjF3ZpRzrFmBV6UjKdiSZkQUW".

(** The error [confirmTransaction] rejects with when the window lapses. *)
Definition expired : JsError :=
  new_Error "Signature has expired: block height exceeded.".

Definition already_processed : JsError :=
  new_Error "This transaction has already been processed".

Definition ambiguous : JsError :=
  new_Error "blockhash not found (the fee payer may have insufficient funds)".

Definition insufficient : JsError :=
  new_Error "Transfer: insufficient funds".

Definition the_run (o : option Run) : Run :=
  match o with
  | Some r => r
  | None => {| trace := []; result := Return "" |}
  end.

(** Attempt 1 lands but its window lapses before the client sees it;
    the resubmission is refused as a duplicate. *)
Definition env_duplicate (a : Z) : AttemptEnv :=
  if (a =? 1)%Z then SendReturns sigA (ConfirmThrows expired)
  else SendThrows already_processed.

(** Every send returns [sigA]; no confirmation arrives in time. *)
Definition env_timeout (a : Z) : AttemptEnv :=
  SendReturns sigA ConfirmTimeout.

(** Every window lapses before confirmation. *)
Definition env_expiring (a : Z) : AttemptEnv :=
  SendReturns sigA (ConfirmThrows expired).

(** The first send fails with a message matching two patterns. *)
Definition env_ambiguous (a : Z) : AttemptEnv :=
  if (a =? 1)%Z then SendThrows ambiguous else SendReturns sigA ConfirmedOk.

Definition env_insufficient (a : Z) : AttemptEnv :=
  SendThrows insufficient.

Definition env_confirmed (a : Z) : AttemptEnv :=
  SendReturns sigA ConfirmedOk.

Definition helper_duplicate_run : Run :=
  Eval vm_compute in
    the_run (TransactionHelper.sendAndConfirmTransaction env_duplicate 3).
Definition utility_duplicate_run : Run :=
  Eval vm_compute in
    the_run (TransactionUtility.sendTransactionWithRetry env_duplicate 3).
Definition helper_timeout_run : Run :=
  Eval vm_compute in
    the_run (TransactionHelper.sendAndConfirmTransaction env_timeout 3).
Definition utility_timeout_run : Run :=
  Eval vm_compute in
    the_run (TransactionUtility.sendTransactionWithRetry env_timeout 3).
Definition helper_expiring_run : Run :=
  Eval vm_compute in
    the_run (TransactionHelper.sendAndConfirmTransaction env_expiring 3).
Definition helper_ambiguous_run : Run :=
  Eval vm_compute in
    the_run (TransactionHelper.sendAndConfirmTransaction env_ambiguous 3).
Definition helper_insufficient_run : Run :=
  Eval vm_compute in
    the_run (TransactionHelper.sendAndConfirmTransaction env_insufficient 3).
Definition helper_confirmed_run : Run :=
  Eval vm_compute in
    the_run (TransactionHelper.sendAndConfirmTransaction env_confirmed 3).

(** A derivation of the associated token address that never throws. *)
Definition derive_ata (mint owner : TokenHelper.PublicKey)
  : Outcome TokenHelper.PublicKey :=
  Return (String.append mint (String.append "/" owner)).

Definition in_use : JsError :=
  new_Error "Allocate: account Address { address: 4Nd1m } already in use".

(** The creation races with another creator: every send is refused. *)
Definition env_in_use (a : Z) : AttemptEnv := SendThrows in_use.

Definition helper_in_use_run : Run :=
  Eval vm_compute in
    the_run (TransactionHelper.sendAndConfirmTransaction env_in_use 3).

Definition devnet : string := "https://api.devnet.solana.com".

(** The constructor of the ledger client: it refuses an endpoint that
    does not start with http: or https:, whatever the commitment. *)
Definition accepts_http (endpoint commitment : string) : bool :=
  String.prefix "http:" endpoint || String.prefix "https:" endpoint.

(** A connection is asked for before and after the pool is initialised. *)
Definition calls_around_init : list ConnectionHelper.Op :=
  [ConnectionHelper.Get devnet "processed";
   ConnectionHelper.Init devnet 2;
   ConnectionHelper.Get devnet "processed"].

(** The pool is initialised first, as wallet-provider.tsx does. *)
Definition calls_after_init : list ConnectionHelper.Op :=
  [ConnectionHelper.Get devnet "processed";
   ConnectionHelper.PreWarm devnet;
   ConnectionHelper.Get devnet "processed"].

Definition filled_state : ConnectionHelper.State :=
  snd (ConnectionHelper.run true accepts_http [ConnectionHelper.Init devnet 2]
         ConnectionHelper.empty_state).

(** A ledger that never answers, polled by a client for which each failed
    poll and the wait after it take 30 seconds. *)
Definition silent_clock (retries : nat) : Z := 1700000000000 + 30000 * Z.of_nat retries.
Definition silent_answer (retries : nat) : option TokenCreator.SignatureResult :=
  None.

Definition tx (n : Z) : TransactionStore.Transaction :=
  {| TransactionStore.id := pretty n;
     TransactionStore.type := TransactionStore.mint;
     TransactionStore.tokenName := Some "Unknown";
     TransactionStore.tokenSymbol := Some "Unknown";
     TransactionStore.amount := Some (5 # 1);
     TransactionStore.mintAddress := "So11111111111111111111111111111111111111112";
     TransactionStore.recipient := None;
     TransactionStore.timestamp := n;
     TransactionStore.status := TransactionStore.success |}.

End Scenarios.
Import Scenarios.

(** ** More vocabulary for the retry loops *)

Module RetryMore.

(** Milliseconds spent in the waits of a trace. *)
Fixpoint total_sleep (t : list Event) : Z :=
  match t with
  | [] => 0
  | EvSleep _ ms :: rest => ms + total_sleep rest
  | _ :: rest => total_sleep rest
  end.

(** Number of blockhash requests in a trace. *)
Fixpoint blockhashes (t : list Event) : nat :=
  match t with
  | [] => 0
  | EvBlockhash _ :: rest => S (blockhashes rest)
  | _ :: rest => blockhashes rest
  end.

(** The waits after attempts [from], [from + 1], ... ([k] of them). *)
Fixpoint backoff_budget (k : nat) (from : Z) : Z :=
  match k with
  | O => 0
  | S k' => backoff_delay from + backoff_budget k' (from + 1)
  end.

(** An event with the text of an error toast blanked. *)
Definition erase_toast (ev : Event) : Event :=
  match ev with
  | EvToastError _ => EvToastError ""
  | _ => ev
  end.

(** The error the [try] block of attempt [a] ends with, if any: what the
    failing awaited call rejected with, or what the confirmation promise
    rejects with. *)
Definition attempt_error (env : Z -> AttemptEnv) (a : Z) : option JsError :=
  match env a with
  | BlockhashThrows e | SignThrows e | SendThrows e => Some e
  | SendReturns _ c => confirmation_error c
  end.

End RetryMore.
Import RetryMore.

(** ** token-helper.ts: the existence check *)

Module TokenAccounts.

(** [doesTokenAccountExist]: the promise always resolves, the [catch]
    block turning every error into [false]. *)
Definition doesTokenAccountExist
    (getAssociatedTokenAddress :
       TokenHelper.PublicKey -> TokenHelper.PublicKey -> Outcome TokenHelper.PublicKey)
    (info : TokenHelper.AccountInfo) (mint owner : TokenHelper.PublicKey) : bool :=
  match getAssociatedTokenAddress mint owner with
  | Throw _ => false
  | Return _ =>
      match info with
      | TokenHelper.AccountFound => true
      | TokenHelper.AccountMissing => false
      | TokenHelper.AccountLookupThrows _ => false
      end
  end.

End TokenAccounts.

(** ** token-utility.ts *)

Module TokenUtility.



(** [getTokenBalance].  [parsed] is [new PublicKey(mintAddress)], [derived]
    the associated token address, [info] what [getAccountInfo] answers and
    [balance] what [getTokenAccountBalance] answers, by its
    [value.uiAmount] ([None] for null). *)
Definition getTokenBalance (parsed : Outcome TokenHelper.PublicKey)
    (derived : TokenHelper.PublicKey -> Outcome TokenHelper.PublicKey)
    (info : TokenHelper.AccountInfo) (balance : Outcome (option Q))
  : Outcome Q :=
  match parsed with
  | Throw error => Throw error
  | Return mintPublicKey =>
      match derived mintPublicKey with
      | Throw error => Throw error
      | Return tokenAccount =>
          match info with
          | TokenHelper.AccountLookupThrows _ => Return 0%Q
          | TokenHelper.AccountMissing => Return 0%Q
          | TokenHelper.AccountFound =>
              match balance with
              | Throw _ => Return 0%Q
              | Return (Some uiAmount) => Return uiAmount
              | Return None => Return 0%Q   (* Number(null) *)
              end
          end
      end
  end.

End TokenUtility.

(** ** token-creator.tsx: the form patterns and the mint handler *)

Module TokenForms.

Definition in_range (lo hi : nat) (c : ascii) : bool :=
  (lo <=? nat_of_ascii c)%nat && (nat_of_ascii c <=? hi)%nat.

(** [[0-9]], [[a-z]], [[A-Z]]. *)
Definition is_digit (c : ascii) : bool := in_range 48 57 c.
Definition is_lower (c : ascii) : bool := in_range 97 122 c.
Definition is_upper (c : ascii) : bool := in_range 65 90 c.

Fixpoint all_chars (p : ascii -> bool) (s : string) : bool :=
  match s with
  | EmptyString => true
  | String c rest => p c && all_chars p rest
  end.

(** [NAME_PATTERN = /^[a-zA-Z0-9 ]{1,32}$/] *)
Definition NAME_PATTERN (s : string) : bool :=
  (1 <=? String.length s)%nat && (String.length s <=? 32)%nat &&
  all_chars (fun c => is_lower c || is_upper c || is_digit c
                      || Ascii.eqb c " "%char) s.

(** [SYMBOL_PATTERN = /^[a-zA-Z0-9]{1,10}$/] *)
Definition SYMBOL_PATTERN (s : string) : bool :=
  (1 <=? String.length s)%nat && (String.length s <=? 10)%nat &&
  all_chars (fun c => is_lower c || is_upper c || is_digit c) s.

(** [DECIMALS_PATTERN = /^([0-9]|1[0-9]|2[0-5])$/] *)
Definition DECIMALS_PATTERN (s : string) : bool :=
  match s with
  | String c EmptyString => is_digit c
  | String c1 (String c2 EmptyString) =>
      (Ascii.eqb c1 "1"%char && is_digit c2) ||
      (Ascii.eqb c1 "2"%char && in_range 48 53 c2)
  | _ => false
  end.

End TokenForms.

Module TokenMinter.

Inductive Toast :=
| ToastSuccess (text : string)
| ToastError (text : string)
| ToastMayHaveSucceeded.      (* the amber notice with the explorer link *)

(** What [mintToken] leaves behind: the [txSignature] state, the history
    store and the toast shown last. *)
Record View := mkView {
  txSignature : option string;
  store : TransactionStore.Store;
  toast : Toast
}.

(** The outer [catch (error)] block; [txSignature] was reset to null when
    the handler started.  [error instanceof Error] is read as: the value
    has a message. *)
Definition outer_catch (st : TransactionStore.Store) (error : JsError) : View :=
  let errorMessage :=
    match message error with
    | Some m => m
    | None => "Unknown error occurred"
    end in
  {| txSignature := None;
     store := st;
     toast := ToastError
       (String.append "Failed to mint tokens: "
          (if includes "User" errorMessage then "User rejected transaction"
           else errorMessage)) |}.

(** The inner [catch (err)] block. *)
Definition inner_catch (signature : string) (st : TransactionStore.Store)
    (err : JsError) : View :=
  if message_includes err "timeout" then
    {| txSignature := Some signature; store := st;
       toast := ToastMayHaveSucceeded |}
  else outer_catch st err.

(** [mintToken] from the point where [sendTransaction] has returned
    [signature]: [confirmed] is how
    [confirmTransactionWithExponentialBackoff(connection, signature, 90000)]
    settled; [amount] is [Number.parseFloat(amount)] and [timestamp] what
    [Date.now()] reads. *)
Definition after_send (signature mintAddress publicKey : string) (amount : Q)
    (timestamp : Z) (st : TransactionStore.Store)
    (confirmed : TokenCreator.Settled) : View :=
  match confirmed with
  | TokenCreator.Thrown err => inner_catch signature st err
  | TokenCreator.Confirmation confirmationResult =>
      match TokenCreator.err confirmationResult with
      | Some json =>
          inner_catch signature st
            (new_Error (String.append "Transaction confirmed but failed: " json))
      | None =>
          {| txSignature := Some signature;
             store :=
               TransactionStore.addTransaction
                 {| TransactionStore.id := signature;
                    TransactionStore.type := TransactionStore.mint;
                    TransactionStore.tokenName := Some "Unknown";
                    TransactionStore.tokenSymbol := Some "Unknown";
                    TransactionStore.amount := Some amount;
                    TransactionStore.mintAddress := mintAddress;
                    TransactionStore.recipient := Some publicKey;
                    TransactionStore.timestamp := timestamp;
                    TransactionStore.status := TransactionStore.success |}
                 st;
             toast := ToastSuccess "Tokens minted successfully!" |}
      end
  end.

(** The poller as [mintToken] calls it, followed by the rest of the
    handler. *)
Definition mintToken_confirm (startTime : Z) (now : nat -> Z)
    (answer : nat -> option TokenCreator.SignatureResult) (fuel : nat)
    (signature mintAddress publicKey : string) (amount : Q) (timestamp : Z)
    (st : TransactionStore.Store) : option View :=
  match TokenCreator.confirmTransactionWithExponentialBackoff
          startTime now answer 90000 fuel with
  | Some run =>
      Some (after_send signature mintAddress publicKey amount timestamp st
              (TokenCreator.settled run))
  | None => None
  end.

End TokenMinter.

(** ** More vocabulary for the pool and the poller *)

Module PoolMore.

(** No hyphen occurs in the string: true of every [Commitment] value. *)
Definition hyphen_free (s : string) : bool :=
  TokenForms.all_chars (fun c => negb (Ascii.eqb c "-"%char)) s.

(** The commitments a sequence of calls asks for have no hyphen. *)
Definition plain_commitments (ops : list ConnectionHelper.Op) : Prop :=
  forall e c, In (ConnectionHelper.Get e c) ops -> hyphen_free c = true.

(** Number of polls in the events of the poller. *)
Fixpoint count_polls (t : list TokenCreator.PollEvent) : nat :=
  match t with
  | [] => 0
  | TokenCreator.EvPoll _ :: rest => S (count_polls rest)
  | TokenCreator.EvWait _ _ :: rest => count_polls rest
  end.

(** The clock when the poll numbered [r] settles.  The poller never
    reads it: in a timeline each poll settles between the loop test before
    it and the next loop test. *)
Definition in_order (now settled_at : nat -> Z) : Prop :=
  forall r, (now r <= settled_at r <= now (S r))%Z.

(** No poll has answered when the clock reads [deadline]. *)
Definition no_result_by (deadline : Z)
    (answer : nat -> option TokenCreator.SignatureResult)
    (settled_at : nat -> Z) : Prop :=
  forall r c, answer r = Some c -> (deadline < settled_at r)%Z.

(** The events of [n] failed polls, each followed by its wait. *)
Definition failed_polls (n : nat) : list TokenCreator.PollEvent :=
  flat_map (fun r => [TokenCreator.EvPoll r;
                      TokenCreator.EvWait r (TokenCreator.poll_delay r)])
           (seq 0 n).

(** Every cached connection sits under the key of its own endpoint and
    commitment, and its commitment has no hyphen. *)
Definition well_keyed (st : ConnectionHelper.State) : Prop :=
  forall k conn, ConnectionHelper.connectionCache st !! k = Some conn ->
    k = ConnectionHelper.cache_key (ConnectionHelper.conn_endpoint conn)
          (ConnectionHelper.conn_commitment conn) /\
    hyphen_free (ConnectionHelper.conn_commitment conn) = true.

(** Every connection constructed so far is in the cache or in the pool. *)
Definition all_kept (st : ConnectionHelper.State) : Prop :=
  ConnectionHelper.constructed st
  = (size (ConnectionHelper.connectionCache st)
     + length (ConnectionHelper.connectionPool st))%nat.

(** The connections [new Connection(endpoint, {commitment: 'confirmed'})]
    numbered from [first], [n] of them. *)
Definition pooled (first n : nat) (endpoint : string)
  : list ConnectionHelper.Connection :=
  map (fun i => {| ConnectionHelper.conn_id := first + i;
                   ConnectionHelper.conn_endpoint := endpoint;
                   ConnectionHelper.conn_commitment := "confirmed" |})
      (seq 0 n).

End PoolMore.
Import PoolMore.

(** ** Further concrete inputs used as examples *)

Module MoreScenarios.

(** A derivation that refuses every owner. *)
Definition derive_refused (mint owner : TokenHelper.PublicKey)
  : Outcome TokenHelper.PublicKey :=
  Throw (new_Error "owner already in use as a program address").

(** The rent query fails before anything is sent. *)
Definition rent_unavailable : Outcome Z :=
  Throw (new_Error "failed to get minimum balance for rent exemption").

(** The expiry error of the ledger client, which names the signature. *)
Definition expired_naming (sig : string) : JsError :=
  new_Error (String.append "Signature "
               (String.append sig " has expired: block height exceeded.")).

Definition stale_blockhash : JsError := new_Error "blockhash not found".

(** Attempt 1 returns [sigA] and its window lapses; every later send is
    refused for its blockhash, so no other signature is ever returned. *)
Definition env_lapsing (a : Z) : AttemptEnv :=
  if (a =? 1)%Z then SendReturns sigA (ConfirmThrows (expired_naming sigA))
  else SendThrows stale_blockhash.

Definition helper_lapsing_run : Run :=
  Eval vm_compute in
    the_run (TransactionHelper.sendAndConfirmTransaction env_lapsing 3).

Definition mainnet : string := "https://api.mainnet-beta.solana.com".

(** An endpoint written without its scheme, and the calls of a page that
    initialises the pool with it, then with a proper endpoint. *)
Definition bare_host : string := "api.devnet.solana.com".
Definition calls_after_refusal : list ConnectionHelper.Op :=
  [ConnectionHelper.Init devnet 2;
   ConnectionHelper.PreWarm devnet;
   ConnectionHelper.Get devnet "processed"].

(** Calls made while rendering on the server, for two clusters. *)
Definition server_calls : list ConnectionHelper.Op :=
  [ConnectionHelper.Get devnet "processed";
   ConnectionHelper.Init devnet 2;
   ConnectionHelper.Get mainnet "confirmed"].

(** The ledger answers the third poll; each failed poll and its wait take
    20 seconds. *)
Definition slow_clock (retries : nat) : Z :=
  1700000000000 + 20000 * Z.of_nat retries.
Definition third_answer (retries : nat) : option TokenCreator.SignatureResult :=
  if (retries =? 2)%nat
  then Some {| TokenCreator.slot := 1234; TokenCreator.err := None |}
  else None.

(** Each poll takes the 30 seconds after which the ledger client gives
    up on its own, and each wait two more; the third poll is answered 94
    seconds after the start. *)
Definition busy_clock (retries : nat) : Z :=
  1700000000000 + 32000 * Z.of_nat retries.
Definition busy_settled (retries : nat) : Z :=
  busy_clock retries + 30000.

(** What the mint handler leaves behind when that third poll confirms a
    mint of 2.5 tokens. *)
Definition minted_view : TokenMinter.View :=
  {| TokenMinter.txSignature := Some sigA;
     TokenMinter.store :=
       {| TransactionStore.transactions :=
            [{| TransactionStore.id := sigA;
                TransactionStore.type := TransactionStore.mint;
                TransactionStore.tokenName := Some "Unknown";
                TransactionStore.tokenSymbol := Some "Unknown";
                TransactionStore.amount := Some (5 # 2);
                TransactionStore.mintAddress := "MintAddr";
                TransactionStore.recipient := Some "Owner";
                TransactionStore.timestamp := 1700000040000;
                TransactionStore.status := TransactionStore.success |}] |};
     TokenMinter.toast := TokenMinter.ToastSuccess "Tokens minted successfully!" |}.

End MoreScenarios.
Import MoreScenarios.

(** * Properties *)

(** ** The loops run to completion and follow the step relation *)

Section LoopFacts.

Variable env : Z -> AttemptEnv.
Variable maxRetries : Z.

Lemma prepend_Some evs o r :
  prepend evs o = Some r ->
  exists r', o = Some r' /\ r = {| trace := evs ++ trace r'; result := result r' |}.
Proof.
  destruct o as [r'|]; simpl; intros H; [|discriminate].
  injection H as <-. eauto.
Qed.

Lemma helper_loop_steps fuel : forall st r,
  TransactionHelper.loop env maxRetries fuel st = Some r ->
  Steps (TransactionHelper.catch_block maxRetries) env maxRetries st r.
Proof.
  induction fuel as [|fuel IH]; intros st r; simpl; [discriminate|].
  destruct (attempt st <? maxRetries)%Z eqn:Hlt.
  - apply Z.ltb_lt in Hlt.
    destruct (try_block env (attempt st + 1) (signature st)) as [[evs sig] [error|]] eqn:Htry.
    + destruct (TransactionHelper.catch_block maxRetries (attempt st + 1) error) as [d|t] eqn:Hc.
      * intros H. apply prepend_Some in H as (r' & Hr' & ->).
        eapply steps_retry; eauto.
      * intros H. injection H as <-. eapply steps_rethrow; eauto.
    + intros H. injection H as <-. eapply steps_return; eauto.
  - apply Z.ltb_ge in Hlt. intros H. injection H as <-. now apply steps_exit.
Qed.

Lemma utility_loop_steps fuel : forall st r,
  TransactionUtility.loop env maxRetries fuel st = Some r ->
  Steps (utility_catch maxRetries) env maxRetries st r.
Proof.
  induction fuel as [|fuel IH]; intros st r; simpl; [discriminate|].
  rewrite andb_true_r.
  destruct (attempt st <? maxRetries)%Z eqn:Hlt.
  - apply Z.ltb_lt in Hlt.
    destruct (try_block env (attempt st + 1) (signature st)) as [[evs sig] [error|]] eqn:Htry.
    + destruct ((attempt st + 1 <? maxRetries)%Z && isBlockhashError error) eqn:Hc.
      * intros H. apply prepend_Some in H as (r' & Hr' & ->).
        eapply steps_retry; eauto. unfold utility_catch. now rewrite Hc.
      * intros H. injection H as <-. eapply steps_rethrow; eauto.
        unfold utility_catch. now rewrite Hc.
    + intros H. injection H as <-. eapply steps_return; eauto.
  - apply Z.ltb_ge in Hlt. intros H. injection H as <-. now apply steps_exit.
Qed.

Lemma helper_loop_total fuel : forall st,
  (Z.to_nat (maxRetries - attempt st) < fuel)%nat ->
  exists r, TransactionHelper.loop env maxRetries fuel st = Some r.
Proof.
  induction fuel as [|fuel IH]; intros st Hfuel; [lia|]. simpl.
  destruct (attempt st <? maxRetries)%Z eqn:Hlt; [|eauto].
  apply Z.ltb_lt in Hlt.
  destruct (try_block env (attempt st + 1) (signature st)) as [[evs sig] [error|]]; [|eauto].
  destruct (TransactionHelper.catch_block maxRetries (attempt st + 1) error); [|eauto].
  destruct (IH {| attempt := attempt st + 1; signature := sig; lastError := Some error |})
    as [r' Hr']; [simpl; lia|].
  rewrite Hr'. simpl. eauto.
Qed.

Lemma utility_loop_total fuel : forall st,
  (Z.to_nat (maxRetries - attempt st) < fuel)%nat ->
  exists r, TransactionUtility.loop env maxRetries fuel st = Some r.
Proof.
  induction fuel as [|fuel IH]; intros st Hfuel; [lia|]. simpl.
  destruct (attempt st <? maxRetries)%Z eqn:Hlt; simpl; [|eauto].
  apply Z.ltb_lt in Hlt.
  destruct (try_block env (attempt st + 1) (signature st)) as [[evs sig] [error|]]; [|eauto].
  destruct ((attempt st + 1 <? maxRetries)%Z && isBlockhashError error); [|eauto].
  destruct (IH {| attempt := attempt st + 1; signature := sig; lastError := Some error |})
    as [r' Hr']; [simpl; lia|].
  rewrite Hr'. simpl. eauto.
Qed.

Lemma sendAndConfirmTransaction_total :
  exists r, TransactionHelper.sendAndConfirmTransaction env maxRetries = Some r.
Proof. apply helper_loop_total. simpl. lia. Qed.

Lemma sendTransactionWithRetry_total :
  exists r, TransactionUtility.sendTransactionWithRetry env maxRetries = Some r.
Proof. apply utility_loop_total. simpl. lia. Qed.

Lemma sendAndConfirmTransaction_steps r :
  TransactionHelper.sendAndConfirmTransaction env maxRetries = Some r ->
  Steps (TransactionHelper.catch_block maxRetries) env maxRetries initial r.
Proof. apply helper_loop_steps. Qed.

Lemma sendTransactionWithRetry_steps r :
  TransactionUtility.sendTransactionWithRetry env maxRetries = Some r ->
  Steps (utility_catch maxRetries) env maxRetries initial r.
Proof. apply utility_loop_steps. Qed.

End LoopFacts.

(** ** One [try] block *)

Section TryBlock.

Variable env : Z -> AttemptEnv.

Ltac open_block :=
  unfold try_block;
  match goal with |- context [env ?a] =>
    destruct (env a) as [e|e|e|s [|j|e|]] end;
  intros [= <- <- <-].

Lemma try_block_events a sig0 evs sig err ev :
  try_block env a sig0 = (evs, sig, err) -> In ev evs -> block_event a ev.
Proof. open_block; simpl; intuition (subst; simpl; auto). Qed.

Lemma try_block_sends a sig0 evs sig err :
  try_block env a sig0 = (evs, sig, err) -> (sends evs <= 1)%nat.
Proof. open_block; unfold sends; simpl; lia. Qed.

Lemma try_block_timer a sig0 evs sig err b :
  try_block env a sig0 = (evs, sig, err) ->
  In (EvTimerFired b) evs -> err = Some timeout_error.
Proof. open_block; simpl; intuition discriminate. Qed.

Lemma try_block_confirm a sig0 evs sig err b :
  try_block env a sig0 = (evs, sig, err) ->
  In (EvConfirmStart b) evs ->
  In (EvConfirmDone b) evs \/ In (EvTimerFired b) evs.
Proof.
  open_block; simpl; intuition (try discriminate);
    match goal with H : EvConfirmStart _ = EvConfirmStart _ |- _ =>
      injection H as <- end; auto 10.
Qed.

Lemma first_send_unique l1 x l2 pre b post :
  (forall c, ~ In (EvSend c) l1) -> (forall c, ~ In (EvSend c) l2) ->
  l1 ++ EvSend x :: l2 = pre ++ EvSend b :: post -> pre = l1.
Proof.
  revert pre.
  induction l1 as [|y l1 IH]; intros [|p pre] H1 H2 Heq; simpl in *.
  - reflexivity.
  - injection Heq as <- Heq. exfalso. apply (H2 b). rewrite Heq. apply in_elt.
  - injection Heq as -> Heq. exfalso. apply (H1 b). now left.
  - injection Heq as <- Heq. f_equal. apply IH; auto.
    intros c Hc. apply (H1 c). now right.
Qed.

(** Before the send of a block there is only the blockhash request. *)
Lemma try_block_before_send a sig0 evs sig err tail pre b post :
  try_block env a sig0 = (evs, sig, err) ->
  (forall c, ~ In (EvSend c) tail) ->
  evs ++ tail = pre ++ EvSend b :: post ->
  forall ev, In ev pre -> ev = EvBlockhash a.
Proof.
  intros Htry Htail. revert Htry.
  open_block; intros Heq.
  1, 2: exfalso;
    assert (Hin : In (EvSend b) ([EvBlockhash a] ++ tail))
      by (rewrite Heq; apply in_elt);
    destruct Hin as [Hin|Hin]; [discriminate Hin | now apply Htail in Hin].
  all: apply (first_send_unique [EvBlockhash a]) in Heq;
    [ subst pre; intros ev [<-|[]]; reflexivity
    | intros c [Hc|[]]; discriminate Hc
    | intros c Hc; simpl in Hc;
      repeat (destruct Hc as [Hc|Hc]; [discriminate Hc|]);
      now apply Htail in Hc ].
Qed.

Lemma try_block_error a sig0 evs sig err :
  try_block env a sig0 = (evs, sig, err) -> err = attempt_error env a.
Proof.
  unfold try_block, attempt_error.
  destruct (env a) as [e|e|e|s c]; intros [= <- <- <-]; reflexivity.
Qed.

Lemma try_block_starts a sig0 evs sig err :
  try_block env a sig0 = (evs, sig, err) -> In (EvBlockhash a) evs.
Proof. open_block; simpl; auto. Qed.

Lemma try_block_signature a sig0 evs sig acc :
  try_block env a sig0 = (evs, sig, None) ->
  last_signature evs acc = Some sig.
Proof.
  unfold try_block.
  destruct (env a) as [e|e|e|s [|j|e|]]; simpl; intros H;
    inversion H; reflexivity.
Qed.

End TryBlock.

(** ** Small checks of the string functions *)

Example includes_inside :
  includes "insufficient funds" "Transfer: insufficient funds" = true.
Proof. reflexivity. Qed.

Example includes_is_case_sensitive :
  includes "blockhash not found" "Blockhash not found" = false.
Proof. reflexivity. Qed.

Example includes_empty_needle : includes "" "abc" = true.
Proof. reflexivity. Qed.

Example timeout_toast_text :
  TransactionHelper.getSolanaErrorMessage (Some timeout_error)
  = "Transaction timed out. Network may be congested.".
Proof. reflexivity. Qed.

Example generic_toast_text :
  TransactionUtility.getErrorMessage (Some already_processed)
  = "Transaction error: This transaction has already been processed".
Proof. reflexivity. Qed.

(** ** Facts about every run of a retry loop *)

Lemma sends_app t1 t2 : sends (t1 ++ t2) = (sends t1 + sends t2)%nat.
Proof.
  induction t1 as [|ev t1 IH]; simpl; [reflexivity|].
  destruct ev; simpl; rewrite IH; reflexivity.
Qed.

Lemma last_signature_app t1 t2 acc :
  last_signature (t1 ++ t2) acc = last_signature t2 (last_signature t1 acc).
Proof.
  revert acc. induction t1 as [|ev t1 IH]; intros acc; simpl; [reflexivity|].
  destruct ev; apply IH.
Qed.

Lemma block_event_tag a ev : block_event a ev -> tag ev = Some a.
Proof. destruct ev; simpl; intros H; subst; try reflexivity; contradiction. Qed.

Lemma timeout_not_blockhash : isBlockhashError timeout_error = false.
Proof. reflexivity. Qed.

Lemma helper_catch_retry maxRetries a e d :
  TransactionHelper.catch_block maxRetries a e = Retry d ->
  isBlockhashError e = true /\ (a < maxRetries)%Z /\ d = backoff_delay a.
Proof.
  unfold TransactionHelper.catch_block.
  destruct (isBlockhashError e); simpl;
    [destruct (a <? maxRetries)%Z eqn:Hlt; simpl|];
    repeat match goal with
           | |- context [if ?c then _ else _] => destruct c
           end; intros H; try discriminate H.
  injection H as <-. apply Z.ltb_lt in Hlt. auto.
Qed.

Lemma helper_catch_rethrow maxRetries a e t :
  TransactionHelper.catch_block maxRetries a e = Rethrow t ->
  isBlockhashError e = false \/ (maxRetries <= a)%Z.
Proof.
  unfold TransactionHelper.catch_block.
  destruct (isBlockhashError e); simpl; [|auto].
  destruct (a <? maxRetries)%Z eqn:Hlt; simpl; [discriminate|].
  apply Z.ltb_ge in Hlt. auto.
Qed.

Lemma utility_catch_retry maxRetries a e d :
  utility_catch maxRetries a e = Retry d ->
  isBlockhashError e = true /\ (a < maxRetries)%Z /\ d = backoff_delay a.
Proof.
  unfold utility_catch.
  destruct (a <? maxRetries)%Z eqn:Hlt; simpl; [|discriminate].
  destruct (isBlockhashError e); [|discriminate].
  intros H. injection H as <-. apply Z.ltb_lt in Hlt. auto.
Qed.

Lemma utility_catch_rethrow maxRetries a e t :
  utility_catch maxRetries a e = Rethrow t ->
  isBlockhashError e = false \/ (maxRetries <= a)%Z.
Proof.
  unfold utility_catch.
  destruct (a <? maxRetries)%Z eqn:Hlt; simpl.
  - destruct (isBlockhashError e); [discriminate|auto].
  - apply Z.ltb_ge in Hlt. auto.
Qed.

Section StepsFacts.

Variable catch : Z -> JsError -> CatchDecision.
Variable env : Z -> AttemptEnv.
Variable maxRetries : Z.

Hypothesis catch_retry : forall a e d,
  catch a e = Retry d ->
  isBlockhashError e = true /\ (a < maxRetries)%Z /\ d = backoff_delay a.
Hypothesis catch_rethrow : forall a e t,
  catch a e = Rethrow t ->
  isBlockhashError e = false \/ (maxRetries <= a)%Z.

Local Abbreviation Run_of := (Steps catch env maxRetries).

(** Every tagged event belongs to an attempt in (attempt, maxRetries]. *)
Lemma steps_tags st r :
  Run_of st r ->
  forall ev b, In ev (trace r) -> tag ev = Some b ->
    (attempt st < b <= maxRetries)%Z.
Proof.
  induction 1 as [st Hge|st evs sig Hlt Htry|st evs sig error t Hlt Htry Hc
                 |st evs sig error d r Hlt Htry Hc Hr IH];
    simpl; intros ev b Hin Htag.
  - destruct Hin.
  - apply in_app_or in Hin as [Hin|[<-|[]]]; [|discriminate].
    apply (try_block_events _ _ _ _ _ _ _ Htry), block_event_tag in Hin.
    assert (b = attempt st + 1)%Z by congruence. lia.
  - apply in_app_or in Hin as [Hin|[<-|[<-|[]]]]; [| |discriminate].
    + apply (try_block_events _ _ _ _ _ _ _ Htry), block_event_tag in Hin.
      assert (b = attempt st + 1)%Z by congruence. lia.
    + injection Htag as <-. lia.
  - apply in_app_or in Hin as [Hin|Hin].
    + apply in_app_or in Hin as [Hin|[<-|[<-|[]]]].
      * apply (try_block_events _ _ _ _ _ _ _ Htry), block_event_tag in Hin.
        assert (b = attempt st + 1)%Z by congruence. lia.
      * injection Htag as <-. lia.
      * injection Htag as <-. lia.
    + specialize (IH ev b Hin Htag). simpl in IH. lia.
Qed.

(** At most one send per attempt still allowed. *)
Lemma steps_sends st r :
  Run_of st r ->
  (sends (trace r) <= Z.to_nat (maxRetries - attempt st))%nat.
Proof.
  induction 1 as [st Hge|st evs sig Hlt Htry|st evs sig error t Hlt Htry Hc
                 |st evs sig error d r Hlt Htry Hc Hr IH];
    simpl; rewrite ?sends_app; simpl.
  - lia.
  - pose proof (try_block_sends _ _ _ _ _ _ Htry). lia.
  - pose proof (try_block_sends _ _ _ _ _ _ Htry). lia.
  - pose proof (try_block_sends _ _ _ _ _ _ Htry). simpl in IH. lia.
Qed.

Ltac by_cases :=
  induction 1 as [st Hge|st evs sig Hlt Htry|st evs sig error t Hlt Htry Hc
                 |st evs sig error d r Hlt Htry Hc Hr IH]; simpl.

(** An event of a [try] block is none of the events of a catch block. *)
Ltac block_absurd Htry Hin :=
  apply (try_block_events _ _ _ _ _ _ _ Htry) in Hin; simpl in Hin;
  contradiction.

(** A retried attempt leaves nothing pending behind it. *)
Lemma retried_block_settled st evs sig error d :
  try_block env (attempt st + 1) (signature st) = (evs, sig, Some error) ->
  catch (attempt st + 1)%Z error = Retry d ->
  forall a,
    let block := evs ++ [EvCatch (attempt st + 1) error;
                         EvSleep (attempt st + 1) d] in
    (In (EvSend a) block -> exists e, In (EvCatch a e) block) /\
    (In (EvConfirmStart a) block -> In (EvConfirmDone a) block).
Proof.
  intros Htry Hc a block. subst block. split; intros Hin.
  - exists error. apply in_or_app. right. left.
    apply in_app_or in Hin as [Hin|[Hin|[Hin|[]]]]; try discriminate.
    apply (try_block_events _ _ _ _ _ _ _ Htry) in Hin. simpl in Hin.
    now subst.
  - apply in_or_app. left.
    apply in_app_or in Hin as [Hin|[Hin|[Hin|[]]]]; try discriminate.
    destruct (try_block_confirm _ _ _ _ _ _ _ Htry Hin) as [Hd|Ht]; [exact Hd|].
    apply (try_block_timer _ _ _ _ _ _ _ Htry) in Ht.
    injection Ht as ->.
    apply catch_retry in Hc as [Hc _]. discriminate Hc.
Qed.

Lemma steps_sequential st r : Run_of st r -> sequential (trace r).
Proof.
  by_cases; intros pre b post Heq a.
  - destruct pre; discriminate Heq.
  - assert (Hb : forall ev, In ev pre -> ev = EvBlockhash (attempt st + 1)).
    { eapply (try_block_before_send _ _ _ _ _ _ _ _ _ _ Htry); [|exact Heq].
      intros c [Hc|[]]; discriminate Hc. }
    split; intros Hin; apply Hb in Hin; discriminate Hin.
  - assert (Hb : forall ev, In ev pre -> ev = EvBlockhash (attempt st + 1)).
    { eapply (try_block_before_send _ _ _ _ _ _ _ _ _ _ Htry); [|exact Heq].
      intros c [Hc'|[Hc'|[]]]; discriminate Hc'. }
    split; intros Hin; apply Hb in Hin; discriminate Hin.
  - pose proof (retried_block_settled _ _ _ _ _ Htry Hc) as Hblock.
    simpl in Hblock.
    apply app_eq_app in Heq as [l [[Hl Hr']|[Hl Hr']]].
    + (* the send is inside, or right after, this block *)
      destruct l as [|x l].
      * rewrite app_nil_r in Hl. subst pre. apply Hblock.
      * simpl in Hr'. injection Hr' as <- Hr'.
        assert (Hb : forall ev, In ev pre -> ev = EvBlockhash (attempt st + 1)).
        { eapply (try_block_before_send _ _ _ _ _ _ _ _ _ _ Htry);
            [|exact Hl].
          intros c [Hc'|[Hc'|[]]]; discriminate Hc'. }
        split; intros Hin; apply Hb in Hin; discriminate Hin.
    + (* the send belongs to a later attempt *)
      subst pre. specialize (IH l b post Hr' a) as [IH1 IH2].
      destruct (Hblock a) as [B1 B2].
      split; intros Hin; apply in_app_or in Hin as [Hin|Hin].
      * destruct (B1 Hin) as [e He]. exists e. apply in_or_app. now left.
      * destruct (IH1 Hin) as [e He]. exists e. apply in_or_app. now right.
      * apply in_or_app. left. now apply B2.
      * apply in_or_app. right. now apply IH2.
Qed.

(** An error the catch block does not retry ends the call: it is the
    value thrown, a toast reports it, and no later attempt exists. *)
Lemma steps_caught_terminal st r :
  Run_of st r ->
  forall a e, In (EvCatch a e) (trace r) ->
    isBlockhashError e = false \/ (maxRetries <= a)%Z ->
    result r = Throw e /\
    (forall ev b, In ev (trace r) -> tag ev = Some b -> (b <= a)%Z) /\
    (exists t, catch a e = Rethrow t /\ In (EvToastError t) (trace r)).
Proof.
  by_cases; intros a e Hin Hterm.
  - destruct Hin.
  - apply in_app_or in Hin as [Hin|[Hin|[]]]; [|discriminate].
    block_absurd Htry Hin.
  - apply in_app_or in Hin as [Hin|[Hin|[Hin|[]]]]; try discriminate.
    { block_absurd Htry Hin. }
    injection Hin as <- <-. split; [reflexivity|]. split.
    + intros ev b Hev Htag.
      apply in_app_or in Hev as [Hev|[<-|[<-|[]]]]; try discriminate.
      * apply (try_block_events _ _ _ _ _ _ _ Htry), block_event_tag in Hev.
        assert (b = attempt st + 1)%Z by congruence. lia.
      * injection Htag as <-. lia.
    + exists t. split; [exact Hc|]. apply in_or_app. right. simpl. auto.
  - apply in_app_or in Hin as [Hin|Hin].
    + exfalso.
      apply in_app_or in Hin as [Hin|[Hin|[Hin|[]]]]; try discriminate.
      { block_absurd Htry Hin. }
      injection Hin as <- <-.
      apply catch_retry in Hc as (Hb & Ha & _).
      destruct Hterm as [Hterm|Hterm]; [congruence|lia].
    + destruct (IH a e Hin Hterm) as (Hres & Htags & t & Hct & Ht).
      split; [exact Hres|]. split.
      * intros ev b Hev Htag.
        pose proof (steps_tags _ _ Hr _ _ Hin eq_refl) as Hrange.
        simpl in Hrange.
        apply in_app_or in Hev as [Hev|Hev]; [|eauto].
        apply in_app_or in Hev as [Hev|[<-|[<-|[]]]].
        -- apply (try_block_events _ _ _ _ _ _ _ Htry), block_event_tag in Hev.
           assert (b = attempt st + 1)%Z by congruence. lia.
        -- injection Htag as <-. lia.
        -- injection Htag as <-. lia.
      * exists t. split; [exact Hct|]. apply in_or_app. now right.
Qed.

(** When the timer of attempt [a] fires, the catch block of that attempt
    receives the timeout error. *)
Lemma steps_timer st r :
  Run_of st r ->
  forall a, In (EvTimerFired a) (trace r) ->
    In (EvCatch a timeout_error) (trace r).
Proof.
  by_cases; intros a Hin.
  - destruct Hin.
  - apply in_app_or in Hin as [Hin|[Hin|[]]]; [|discriminate].
    apply (try_block_timer _ _ _ _ _ _ _ Htry) in Hin. discriminate Hin.
  - apply in_app_or in Hin as [Hin|[Hin|[Hin|[]]]]; try discriminate.
    pose proof (try_block_events _ _ _ _ _ _ _ Htry Hin) as Ha. simpl in Ha.
    apply (try_block_timer _ _ _ _ _ _ _ Htry) in Hin.
    injection Hin as ->. subst a.
    apply in_or_app. right. now left.
  - apply in_app_or in Hin as [Hin|Hin].
    + apply in_app_or in Hin as [Hin|[Hin|[Hin|[]]]]; try discriminate.
      pose proof (try_block_events _ _ _ _ _ _ _ Htry Hin) as Ha. simpl in Ha.
      apply (try_block_timer _ _ _ _ _ _ _ Htry) in Hin.
      injection Hin as ->. subst a.
      apply in_or_app. left. apply in_or_app. right. now left.
    + apply in_or_app. right. now apply IH.
Qed.

(** A run that enters the loop body requests a blockhash first. *)
Lemma steps_first_blockhash st r :
  Run_of st r -> (attempt st < maxRetries)%Z ->
  In (EvBlockhash (attempt st + 1)) (trace r).
Proof.
  destruct 1 as [st Hge|st evs sig Hlt Htry|st evs sig error t Hlt Htry Hc
                |st evs sig error d r Hlt Htry Hc Hr]; simpl; intros Hlt'.
  - lia.
  - apply in_or_app. left. apply (try_block_starts _ _ _ _ _ _ Htry).
  - apply in_or_app. left. apply (try_block_starts _ _ _ _ _ _ Htry).
  - apply in_or_app. left. apply in_or_app. left.
    apply (try_block_starts _ _ _ _ _ _ Htry).
Qed.

(** Every wait follows a blockhash error of an attempt that is not the
    last, and lasts [backoff_delay] of that attempt. *)
Lemma steps_sleep st r :
  Run_of st r ->
  forall a d, In (EvSleep a d) (trace r) ->
    d = backoff_delay a /\ (attempt st < a < maxRetries)%Z /\
    exists e, In (EvCatch a e) (trace r) /\ isBlockhashError e = true.
Proof.
  by_cases; intros a d' Hin.
  - destruct Hin.
  - apply in_app_or in Hin as [Hin|[Hin|[]]]; [|discriminate].
    block_absurd Htry Hin.
  - apply in_app_or in Hin as [Hin|[Hin|[Hin|[]]]]; try discriminate.
    block_absurd Htry Hin.
  - apply in_app_or in Hin as [Hin|Hin].
    + apply in_app_or in Hin as [Hin|[Hin|[Hin|[]]]]; try discriminate.
      { block_absurd Htry Hin. }
      injection Hin as <- <-.
      apply catch_retry in Hc as (Hb & Ha & ->).
      split; [reflexivity|]. split; [lia|].
      exists error. split; [|exact Hb].
      apply in_or_app. left. apply in_or_app. right. now left.
    + destruct (IH a d' Hin) as (Hd & Ha & e & He & Hb). simpl in Ha.
      split; [exact Hd|]. split; [lia|].
      exists e. split; [|exact Hb]. apply in_or_app. now right.
Qed.

(** A blockhash error of an attempt that is not the last is followed by
    the wait and by a new attempt with a fresh blockhash. *)
Lemma steps_retried st r :
  Run_of st r ->
  forall a e, In (EvCatch a e) (trace r) ->
    isBlockhashError e = true -> (a < maxRetries)%Z ->
    In (EvSleep a (backoff_delay a)) (trace r) /\
    In (EvBlockhash (a + 1)) (trace r).
Proof.
  by_cases; intros a e Hin Hb Ha.
  - destruct Hin.
  - apply in_app_or in Hin as [Hin|[Hin|[]]]; [|discriminate].
    block_absurd Htry Hin.
  - exfalso.
    apply in_app_or in Hin as [Hin|[Hin|[Hin|[]]]]; try discriminate.
    { block_absurd Htry Hin. }
    injection Hin as <- <-.
    apply catch_rethrow in Hc as [Hc|Hc]; [congruence|lia].
  - apply in_app_or in Hin as [Hin|Hin].
    + apply in_app_or in Hin as [Hin|[Hin|[Hin|[]]]]; try discriminate.
      { block_absurd Htry Hin. }
      injection Hin as <- <-.
      apply catch_retry in Hc as (_ & _ & ->). split.
      * apply in_or_app. left. apply in_or_app. right. right. now left.
      * apply in_or_app. right.
        apply (steps_first_blockhash _ _ Hr). simpl. lia.
    + destruct (IH a e Hin Hb Ha) as [H1 H2].
      split; apply in_or_app; now right.
Qed.

(** The value returned is the signature of the last send. *)
Lemma steps_return st r :
  Run_of st r ->
  forall sig acc, result r = Return sig ->
    last_signature (trace r) acc = Some sig.
Proof.
  by_cases; intros sig' acc Hres; try discriminate Hres.
  - injection Hres as <-. rewrite last_signature_app. simpl.
    apply (try_block_signature _ _ _ _ _ _ Htry).
  - rewrite last_signature_app. now apply IH.
Qed.

(** An error thrown to the caller is the error the last catch block
    received, unless the loop body never ran. *)
Lemma steps_throw st r :
  Run_of st r ->
  forall e, result r = Throw e ->
    (exists pre a t, trace r = pre ++ [EvCatch a e; EvToastError t]) \/
    (trace r = [] /\ (maxRetries <= attempt st)%Z /\
     e = match lastError st with
         | Some e' => e'
         | None => new_Error "Transaction failed for unknown reason"
         end).
Proof.
  by_cases; intros e Hres.
  - right. injection Hres as <-. auto.
  - discriminate Hres.
  - left. injection Hres as <-. eauto.
  - left. destruct (IH e Hres) as [(pre & a & t & Heq)|(_ & Hge & _)].
    + rewrite Heq. eexists _, a, t. apply app_assoc.
    + apply catch_retry in Hc as (_ & Ha & _). simpl in Hge. lia.
Qed.

End StepsFacts.

(** Both functions, seen through the step relation. *)
Lemma either_run_steps env maxRetries r :
  TransactionHelper.sendAndConfirmTransaction env maxRetries = Some r \/
  TransactionUtility.sendTransactionWithRetry env maxRetries = Some r ->
  exists catch,
    Steps catch env maxRetries initial r /\
    (forall a e d, catch a e = Retry d ->
       isBlockhashError e = true /\ (a < maxRetries)%Z /\ d = backoff_delay a) /\
    (forall a e t, catch a e = Rethrow t ->
       isBlockhashError e = false \/ (maxRetries <= a)%Z).
Proof.
  intros [H|H].
  - exists (TransactionHelper.catch_block maxRetries).
    split; [now apply sendAndConfirmTransaction_steps|].
    split; [apply helper_catch_retry | apply helper_catch_rethrow].
  - exists (utility_catch maxRetries).
    split; [now apply sendTransactionWithRetry_steps|].
    split; [apply utility_catch_retry | apply utility_catch_rethrow].
Qed.

(** ** Bounded, sequential submission *)

(** C1: for every environment and every maxRetries, sendAndConfirmTransaction
    and sendTransactionWithRetry settle, invoke the send operation at most
    maxRetries times, and start a send only when every attempt submitted
    before it has reached its catch block and every confirmation started
    before it has settled. *)
Theorem C1_at_most_N_sequential_sends (env : Z -> AttemptEnv) (maxRetries : Z) :
  (exists r, TransactionHelper.sendAndConfirmTransaction env maxRetries = Some r /\
             (sends (trace r) <= Z.to_nat maxRetries)%nat /\
             sequential (trace r)) /\
  (exists r, TransactionUtility.sendTransactionWithRetry env maxRetries = Some r /\
             (sends (trace r) <= Z.to_nat maxRetries)%nat /\
             sequential (trace r)).
Proof.
  split.
  - destruct (sendAndConfirmTransaction_total env maxRetries) as [r Hr].
    exists r. split; [exact Hr|].
    apply sendAndConfirmTransaction_steps in Hr. split.
    + apply steps_sends in Hr. simpl in Hr.
      now replace (maxRetries - 0)%Z with maxRetries in Hr by lia.
    + eapply steps_sequential; [apply helper_catch_retry | exact Hr].
  - destruct (sendTransactionWithRetry_total env maxRetries) as [r Hr].
    exists r. split; [exact Hr|].
    apply sendTransactionWithRetry_steps in Hr. split.
    + apply steps_sends in Hr. simpl in Hr.
      now replace (maxRetries - 0)%Z with maxRetries in Hr by lia.
    + eapply steps_sequential; [apply utility_catch_retry | exact Hr].
Qed.

(** ** What follows a retried attempt *)

Section StepsOrder.

Variable catch : Z -> JsError -> CatchDecision.
Variable env : Z -> AttemptEnv.
Variable maxRetries : Z.

Hypothesis catch_retry : forall a e d,
  catch a e = Retry d ->
  isBlockhashError e = true /\ (a < maxRetries)%Z /\ d = backoff_delay a.
Hypothesis catch_rethrow : forall a e t,
  catch a e = Rethrow t ->
  isBlockhashError e = false \/ (maxRetries <= a)%Z.

Lemma try_block_head a sig0 evs sig err :
  try_block env a sig0 = (evs, sig, err) ->
  exists rest, evs = EvBlockhash a :: rest.
Proof.
  unfold try_block.
  destruct (env a) as [e|e|e|s c]; intros [= <- <- <-]; simpl; eauto.
Qed.

Lemma steps_head st r :
  Steps catch env maxRetries st r -> (attempt st < maxRetries)%Z ->
  exists post, trace r = EvBlockhash (attempt st + 1) :: post.
Proof.
  destruct 1 as [st Hge|st evs sig Hlt Htry|st evs sig error t Hlt Htry Hc
                |st evs sig error d r Hlt Htry Hc Hr]; simpl; intros Hlt';
    [lia| | |];
    destruct (try_block_head _ _ _ _ _ Htry) as [rest ->]; simpl; eauto.
Qed.

(** The catch of a retried attempt is followed at once by the wait, and
    the wait by the blockhash request of the next attempt. *)
Lemma steps_retried_next st r :
  Steps catch env maxRetries st r ->
  forall a e, In (EvCatch a e) (trace r) ->
    isBlockhashError e = true -> (a < maxRetries)%Z ->
    exists pre post,
      trace r = pre ++ EvCatch a e :: EvSleep a (backoff_delay a)
                      :: EvBlockhash (a + 1) :: post.
Proof.
  induction 1 as [st Hge|st evs sig Hlt Htry|st evs sig error t Hlt Htry Hc
                 |st evs sig error d r Hlt Htry Hc Hr IH]; simpl;
    intros a e Hin Hb Ha.
  - destruct Hin.
  - apply in_app_or in Hin as [Hin|[Hin|[]]]; [|discriminate].
    apply (try_block_events _ _ _ _ _ _ _ Htry) in Hin. destruct Hin.
  - exfalso.
    apply in_app_or in Hin as [Hin|[Hin|[Hin|[]]]]; try discriminate.
    { apply (try_block_events _ _ _ _ _ _ _ Htry) in Hin. destruct Hin. }
    injection Hin as <- <-.
    apply catch_rethrow in Hc as [Hc|Hc]; [congruence|lia].
  - apply in_app_or in Hin as [Hin|Hin].
    + apply in_app_or in Hin as [Hin|[Hin|[Hin|[]]]]; try discriminate.
      { apply (try_block_events _ _ _ _ _ _ _ Htry) in Hin. destruct Hin. }
      injection Hin as <- <-.
      apply catch_retry in Hc as (_ & _ & ->).
      destruct (steps_head _ _ Hr) as [post Hpost]; [simpl; lia|].
      simpl in Hpost. exists evs, post. rewrite Hpost.
      rewrite <- app_assoc. reflexivity.
    + destruct (IH a e Hin Hb Ha) as (pre & post & Heq).
      exists ((evs ++ [EvCatch (attempt st + 1) error;
                       EvSleep (attempt st + 1) d]) ++ pre), post.
      rewrite Heq. apply app_assoc.
Qed.

(** The error a catch block receives is the one the [try] block of that
    attempt ended with. *)
Lemma steps_catch_error st r :
  Steps catch env maxRetries st r ->
  forall a e, In (EvCatch a e) (trace r) -> attempt_error env a = Some e.
Proof.
  induction 1 as [st Hge|st evs sig Hlt Htry|st evs sig error t Hlt Htry Hc
                 |st evs sig error d r Hlt Htry Hc Hr IH]; simpl;
    intros a e Hin.
  - destruct Hin.
  - apply in_app_or in Hin as [Hin|[Hin|[]]]; [|discriminate].
    apply (try_block_events _ _ _ _ _ _ _ Htry) in Hin. destruct Hin.
  - apply in_app_or in Hin as [Hin|[Hin|[Hin|[]]]]; try discriminate.
    { apply (try_block_events _ _ _ _ _ _ _ Htry) in Hin. destruct Hin. }
    injection Hin as <- <-.
    symmetry. exact (try_block_error _ _ _ _ _ _ Htry).
  - apply in_app_or in Hin as [Hin|Hin]; [|exact (IH a e Hin)].
    apply in_app_or in Hin as [Hin|[Hin|[Hin|[]]]]; try discriminate.
    { apply (try_block_events _ _ _ _ _ _ _ Htry) in Hin. destruct Hin. }
    injection Hin as <- <-.
    symmetry. exact (try_block_error _ _ _ _ _ _ Htry).
Qed.

(** When every attempt up to [a] ends with a blockhash error and [a] is
    not the last attempt allowed, the loop reaches the catch block of
    attempt [a]. *)
Lemma steps_reaches st r :
  Steps catch env maxRetries st r ->
  forall a (errs : Z -> JsError),
    (attempt st < a < maxRetries)%Z ->
    (forall b, (attempt st < b <= a)%Z ->
       attempt_error env b = Some (errs b) /\
       isBlockhashError (errs b) = true) ->
    In (EvCatch a (errs a)) (trace r).
Proof.
  induction 1 as [st Hge|st evs sig Hlt Htry|st evs sig error t Hlt Htry Hc
                 |st evs sig error d r Hlt Htry Hc Hr IH]; simpl;
    intros a errs Ha Hfail.
  - lia.
  - exfalso. apply try_block_error in Htry.
    destruct (Hfail (attempt st + 1)%Z) as [He _]; [lia|]. congruence.
  - exfalso. apply try_block_error in Htry.
    destruct (Hfail (attempt st + 1)%Z) as [He Hb]; [lia|].
    assert (error = errs (attempt st + 1)%Z) by congruence. subst error.
    apply catch_rethrow in Hc as [Hc|Hc]; [congruence|lia].
  - apply try_block_error in Htry.
    destruct (Hfail (attempt st + 1)%Z) as [He Hb]; [lia|].
    assert (error = errs (attempt st + 1)%Z) by congruence. subst error.
    apply in_or_app.
    destruct (Z.eq_dec a (attempt st + 1)%Z) as [->|Hne].
    + left. apply in_or_app. right. now left.
    + right. apply IH; simpl; [lia|].
      intros b Hb'. apply Hfail. lia.
Qed.

(** When every attempt before [a] ends with a blockhash error and the
    confirmation of attempt [a] times out, the run contains the signature
    that attempt returned and the firing of its timer. *)
Lemma steps_reaches_timer st r :
  Steps catch env maxRetries st r ->
  forall a sig (errs : Z -> JsError),
    (attempt st < a <= maxRetries)%Z ->
    (forall b, (attempt st < b < a)%Z ->
       attempt_error env b = Some (errs b) /\
       isBlockhashError (errs b) = true) ->
    env a = SendReturns sig ConfirmTimeout ->
    In (EvSignature a sig) (trace r) /\ In (EvTimerFired a) (trace r).
Proof.
  induction 1 as [st Hge|st evs sig' Hlt Htry|st evs sig' error t Hlt Htry Hc
                 |st evs sig' error d r Hlt Htry Hc Hr IH]; simpl;
    intros a sig errs Ha Hfail Henv.
  - lia.
  - exfalso. apply try_block_error in Htry.
    destruct (Z.eq_dec a (attempt st + 1)%Z) as [->|Hne].
    + unfold attempt_error in Htry. rewrite Henv in Htry. discriminate Htry.
    + destruct (Hfail (attempt st + 1)%Z) as [He _]; [lia|]. congruence.
  - destruct (Z.eq_dec a (attempt st + 1)%Z) as [->|Hne].
    + unfold try_block in Htry. rewrite Henv in Htry.
      injection Htry as <- _ _. simpl. auto 10.
    + exfalso. apply try_block_error in Htry.
      destruct (Hfail (attempt st + 1)%Z) as [He Hb]; [lia|].
      assert (error = errs (attempt st + 1)%Z) by congruence. subst error.
      apply catch_rethrow in Hc as [Hc|Hc]; [congruence|lia].
  - destruct (Z.eq_dec a (attempt st + 1)%Z) as [->|Hne].
    + unfold try_block in Htry. rewrite Henv in Htry.
      injection Htry as <- _ _. simpl. auto 10.
    + assert (Hrest : In (EvSignature a sig) (trace r) /\
                      In (EvTimerFired a) (trace r)).
      { apply (IH a sig errs); simpl; [lia| |exact Henv].
        intros b Hb. apply Hfail. lia. }
      destruct Hrest as [H1 H2].
      split; apply in_or_app; right; assumption.
Qed.

End StepsOrder.

(** ** Backoff between attempts *)

Lemma backoff_delay_monotone a b :
  (a <= b)%Z -> (backoff_delay a <= backoff_delay b <= 8000)%Z.
Proof.
  intros Hab. unfold backoff_delay.
  assert (2 ^ (a - 1) <= 2 ^ (b - 1))%Z by (apply Z.pow_le_mono_r; lia).
  lia.
Qed.

(** C5: in both retry loops, when every attempt up to attempt a ends with
    a blockhash error and attempts remain after a, the catch of attempt a
    is followed at once by a wait of min(1000 * 2^(a-1), 8000)
    milliseconds and then by the blockhash request of attempt a+1; every
    wait of the run has that length, and the length is non-decreasing in
    the attempt number and never above 8000. *)
Theorem C5_backoff_delay (env : Z -> AttemptEnv) (maxRetries a : Z)
    (errs : Z -> JsError) :
  (1 <= a < maxRetries)%Z ->
  (forall b, (1 <= b <= a)%Z ->
     attempt_error env b = Some (errs b) /\
     isBlockhashError (errs b) = true) ->
  let delayed r :=
    (exists pre post,
       trace r = pre ++ EvCatch a (errs a)
                     :: EvSleep a (Z.min (1000 * 2 ^ (a - 1)) 8000)
                     :: EvBlockhash (a + 1) :: post) /\
    (forall b d, In (EvSleep b d) (trace r) ->
       (1 <= b < maxRetries)%Z /\ d = Z.min (1000 * 2 ^ (b - 1)) 8000) in
  (exists r, TransactionHelper.sendAndConfirmTransaction env maxRetries = Some r /\
             delayed r) /\
  (exists r, TransactionUtility.sendTransactionWithRetry env maxRetries = Some r /\
             delayed r) /\
  (forall b c, (b <= c)%Z ->
     (Z.min (1000 * 2 ^ (b - 1)) 8000 <= Z.min (1000 * 2 ^ (c - 1)) 8000 <= 8000)%Z).
Proof.
  intros Ha Hfail delayed.
  assert (Hany : forall catch r,
    Steps catch env maxRetries initial r ->
    (forall a e d, catch a e = Retry d ->
       isBlockhashError e = true /\ (a < maxRetries)%Z /\ d = backoff_delay a) ->
    (forall a e t, catch a e = Rethrow t ->
       isBlockhashError e = false \/ (maxRetries <= a)%Z) ->
    delayed r).
  { intros catch r Hsteps Hretry Hrethrow.
    assert (Hin : In (EvCatch a (errs a)) (trace r)).
    { apply (steps_reaches catch env maxRetries Hrethrow _ _ Hsteps a errs);
        simpl; [lia|].
      intros b Hb. apply Hfail. lia. }
    split.
    - exact (steps_retried_next catch env maxRetries Hretry Hrethrow _ _ Hsteps
               a (errs a) Hin (proj2 (Hfail a ltac:(lia))) (proj2 Ha)).
    - intros b d Hsl.
      destruct (steps_sleep catch env maxRetries Hretry _ _ Hsteps b d Hsl)
        as (-> & Hrange & _).
      simpl in Hrange. split; [lia|reflexivity]. }
  split; [|split].
  - destruct (sendAndConfirmTransaction_total env maxRetries) as [r Hr].
    exists r. split; [exact Hr|].
    apply (Hany (TransactionHelper.catch_block maxRetries)).
    + now apply sendAndConfirmTransaction_steps.
    + apply helper_catch_retry.
    + apply helper_catch_rethrow.
  - destruct (sendTransactionWithRetry_total env maxRetries) as [r Hr].
    exists r. split; [exact Hr|].
    apply (Hany (utility_catch maxRetries)).
    + now apply sendTransactionWithRetry_steps.
    + apply utility_catch_retry.
    + apply utility_catch_rethrow.
  - intros b c Hbc. apply (backoff_delay_monotone b c Hbc).
Qed.

Lemma C5_backoff_delay_witness :
  (1 <= 2 < 3)%Z /\
  (forall b, (1 <= b <= 2)%Z ->
     attempt_error env_expiring b = Some expired /\
     isBlockhashError expired = true) /\
  (exists r,
     TransactionHelper.sendAndConfirmTransaction env_expiring 3 = Some r /\
     exists pre post,
       trace r = pre ++ EvCatch 2 expired
                     :: EvSleep 2 (Z.min (1000 * 2 ^ (2 - 1)) 8000)
                     :: EvBlockhash (2 + 1) :: post) /\
  (exists r,
     TransactionUtility.sendTransactionWithRetry env_expiring 3 = Some r /\
     exists pre post,
       trace r = pre ++ EvCatch 2 expired
                     :: EvSleep 2 (Z.min (1000 * 2 ^ (2 - 1)) 8000)
                     :: EvBlockhash (2 + 1) :: post).
Proof.
  assert (Ha : (1 <= 2 < 3)%Z) by lia.
  assert (Hfail : forall b, (1 <= b <= 2)%Z ->
            attempt_error env_expiring b = Some expired /\
            isBlockhashError expired = true)
    by (intros b Hb; split; reflexivity).
  refine (conj Ha (conj Hfail _)).
  destruct (C5_backoff_delay env_expiring 3 2 (fun _ => expired) Ha Hfail)
    as ((r1 & Hr1 & Hd1 & _) & (r2 & Hr2 & Hd2 & _) & _).
  exact (conj (ex_intro _ r1 (conj Hr1 Hd1)) (ex_intro _ r2 (conj Hr2 Hd2))).
Defined.

(** ** Errors that end the call *)

(** The negation of C2 at a concrete request: attempt 1 returns the
    signature and its window lapses, attempt 2 is refused as already
    processed; both functions reject with that error instead of returning
    the signature. *)
Lemma C2_counterexample :
  (TransactionHelper.sendAndConfirmTransaction env_duplicate 3
     = Some helper_duplicate_run /\
   In (EvSignature 1 sigA) (trace helper_duplicate_run) /\
   In (EvCatch 2 already_processed) (trace helper_duplicate_run) /\
   result helper_duplicate_run = Throw already_processed /\
   result helper_duplicate_run <> Return sigA) /\
  (TransactionUtility.sendTransactionWithRetry env_duplicate 3
     = Some utility_duplicate_run /\
   In (EvSignature 1 sigA) (trace utility_duplicate_run) /\
   In (EvCatch 2 already_processed) (trace utility_duplicate_run) /\
   result utility_duplicate_run = Throw already_processed /\
   result utility_duplicate_run <> Return sigA).
Proof.
  repeat split; try reflexivity; try discriminate; simpl; auto 20.
Qed.

(** C2 (amended): an error saying the transaction has already been
    processed is never turned into success.  When it is not also a
    blockhash error, or no attempt remains, both functions show an error
    toast and reject with that same error, and no later attempt is made;
    when it is also a blockhash error and attempts remain, the attempt is
    retried after the backoff wait, like any blockhash error. *)
Theorem C2_already_processed_is_rethrown (env : Z -> AttemptEnv)
    (maxRetries : Z) (r : Run) (a : Z) (e : JsError) :
  TransactionHelper.sendAndConfirmTransaction env maxRetries = Some r \/
  TransactionUtility.sendTransactionWithRetry env maxRetries = Some r ->
  In (EvCatch a e) (trace r) ->
  message_includes e "This transaction has already been processed" = true ->
  (isBlockhashError e = false \/ (maxRetries <= a)%Z ->
     result r = Throw e /\
     (forall ev b, In ev (trace r) -> tag ev = Some b -> (b <= a)%Z) /\
     (exists t, In (EvToastError t) (trace r))) /\
  (isBlockhashError e = true /\ (a < maxRetries)%Z ->
     exists pre post,
       trace r = pre ++ EvCatch a e :: EvSleep a (backoff_delay a)
                       :: EvBlockhash (a + 1) :: post).
Proof.
  intros Hrun Hin _.
  destruct (either_run_steps _ _ _ Hrun) as (catch & Hsteps & Hretry & Hrethrow).
  split.
  - intros Hterm.
    destruct (steps_caught_terminal catch env maxRetries Hretry _ _ Hsteps
                a e Hin Hterm) as (Hres & Htags & t & _ & Ht).
    eauto.
  - intros [Hb Ha].
    exact (steps_retried_next catch env maxRetries Hretry Hrethrow _ _ Hsteps
             a e Hin Hb Ha).
Qed.

Lemma C2_already_processed_is_rethrown_witness :
  (TransactionHelper.sendAndConfirmTransaction env_duplicate 3
     = Some helper_duplicate_run \/
   TransactionUtility.sendTransactionWithRetry env_duplicate 3
     = Some helper_duplicate_run) /\
  In (EvCatch 2 already_processed) (trace helper_duplicate_run) /\
  message_includes already_processed
    "This transaction has already been processed" = true /\
  (isBlockhashError already_processed = false \/ (3 <= 2)%Z) /\
  result helper_duplicate_run = Throw already_processed.
Proof.
  assert (Hrun : TransactionHelper.sendAndConfirmTransaction env_duplicate 3
                 = Some helper_duplicate_run) by reflexivity.
  assert (Hin : In (EvCatch 2 already_processed) (trace helper_duplicate_run))
    by (simpl; auto 20).
  assert (Hm : message_includes already_processed
                 "This transaction has already been processed" = true)
    by reflexivity.
  assert (Hb : isBlockhashError already_processed = false \/ (3 <= 2)%Z)
    by (left; reflexivity).
  refine (conj (or_introl Hrun) (conj Hin (conj Hm (conj Hb _)))).
  exact (proj1 (proj1 (C2_already_processed_is_rethrown env_duplicate 3
                         helper_duplicate_run 2 already_processed
                         (or_introl Hrun) Hin Hm) Hb)).
Defined.

(** The negation of C3 at a concrete request: three attempts are allowed,
    the confirmation of attempt 1 times out, and both functions reject
    with the timeout error after one send, without a second attempt. *)
Lemma C3_counterexample :
  (TransactionHelper.sendAndConfirmTransaction env_timeout 3
     = Some helper_timeout_run /\
   In (EvTimerFired 1) (trace helper_timeout_run) /\
   result helper_timeout_run = Throw timeout_error /\
   sends (trace helper_timeout_run) = 1%nat /\
   ~ In (EvBlockhash 2) (trace helper_timeout_run)) /\
  (TransactionUtility.sendTransactionWithRetry env_timeout 3
     = Some utility_timeout_run /\
   In (EvTimerFired 1) (trace utility_timeout_run) /\
   result utility_timeout_run = Throw timeout_error /\
   sends (trace utility_timeout_run) = 1%nat /\
   ~ In (EvBlockhash 2) (trace utility_timeout_run)).
Proof.
  repeat split; try reflexivity; simpl; auto 20; intuition discriminate.
Qed.

(** C3 (amended): a confirmation timeout is not retried.  Whenever the
    timer of an attempt fires, both functions show an error toast and
    reject with the 'Transaction confirmation timeout' error, and the run
    contains no event of a later attempt, whatever number of attempts
    remains; every wait before a new attempt follows a blockhash error. *)
Theorem C3_timeout_is_not_retried (env : Z -> AttemptEnv) (maxRetries : Z)
    (r : Run) (a : Z) :
  TransactionHelper.sendAndConfirmTransaction env maxRetries = Some r \/
  TransactionUtility.sendTransactionWithRetry env maxRetries = Some r ->
  In (EvTimerFired a) (trace r) ->
  result r = Throw timeout_error /\
  (forall ev b, In ev (trace r) -> tag ev = Some b -> (b <= a)%Z) /\
  ~ In (EvBlockhash (a + 1)) (trace r) /\
  (exists t, In (EvToastError t) (trace r)) /\
  (forall b d, In (EvSleep b d) (trace r) ->
     exists e, In (EvCatch b e) (trace r) /\ isBlockhashError e = true).
Proof.
  intros Hrun Hin.
  destruct (either_run_steps _ _ _ Hrun) as (catch & Hsteps & Hretry & Hrethrow).
  apply (steps_timer catch env maxRetries _ _ Hsteps) in Hin.
  destruct (steps_caught_terminal catch env maxRetries Hretry _ _ Hsteps
              a timeout_error Hin (or_introl timeout_not_blockhash))
    as (Hres & Htags & t & _ & Ht).
  split; [exact Hres|]. split; [exact Htags|]. split; [|split; [eauto|]].
  - intros Hnext. specialize (Htags _ (a + 1)%Z Hnext eq_refl). lia.
  - intros b d Hsl.
    exact (proj2 (proj2 (steps_sleep catch env maxRetries Hretry _ _ Hsteps
                           b d Hsl))).
Qed.

Lemma C3_timeout_is_not_retried_witness :
  (TransactionHelper.sendAndConfirmTransaction env_timeout 3
     = Some utility_timeout_run \/
   TransactionUtility.sendTransactionWithRetry env_timeout 3
     = Some utility_timeout_run) /\
  In (EvTimerFired 1) (trace utility_timeout_run) /\
  result utility_timeout_run = Throw timeout_error /\
  ~ In (EvBlockhash (1 + 1)) (trace utility_timeout_run).
Proof.
  assert (Hrun : TransactionUtility.sendTransactionWithRetry env_timeout 3
                 = Some utility_timeout_run) by reflexivity.
  assert (Hin : In (EvTimerFired 1) (trace utility_timeout_run))
    by (simpl; auto 20).
  pose proof (C3_timeout_is_not_retried env_timeout 3 utility_timeout_run 1
                (or_intror Hrun) Hin) as (Hres & _ & Hnext & _ & _).
  exact (conj (or_intror Hrun) (conj Hin (conj Hres Hnext))).
Defined.

(** ** What the caller gets back *)

Lemma prefix_length_le (needle hay : string) :
  String.prefix needle hay = true ->
  (String.length needle <= String.length hay)%nat.
Proof.
  revert hay. induction needle as [|c needle IH]; intros [|h hay]; simpl;
    try discriminate; try lia.
  destruct (ascii_dec c h); [|discriminate].
  intros H. apply IH in H. lia.
Qed.

Lemma includes_length_le (needle hay : string) :
  includes needle hay = true ->
  (String.length needle <= String.length hay)%nat.
Proof.
  induction hay as [|h hay IH]; cbn [includes]; rewrite orb_true_iff.
  - intros [H|H]; [|discriminate]. now apply prefix_length_le in H.
  - intros [H|H]; [now apply prefix_length_le in H|].
    apply IH in H. simpl. lia.
Qed.

(** The negation of C4 at two concrete requests of three attempts.  In
    the first, the send of attempt 1 returns [sigA], the confirmation
    times out, and the error thrown to the caller is the fixed timeout
    error, in which [sigA] does not occur.  In the second, the send of
    attempt 1 returns [sigA] and its window lapses, the two later sends
    are refused for their blockhash, the retries are exhausted, and the
    error thrown is that of the last send, in which [sigA] does not occur
    either. *)
Lemma C4_counterexample :
  (TransactionHelper.sendAndConfirmTransaction env_timeout 3
     = Some helper_timeout_run /\
   In (EvSignature 1 sigA) (trace helper_timeout_run) /\
   last_signature (trace helper_timeout_run) None = Some sigA /\
   In (EvTimerFired 1) (trace helper_timeout_run) /\
   result helper_timeout_run
     = Throw (new_Error "Transaction confirmation timeout") /\
   surfaces sigA (result helper_timeout_run) = false) /\
  (TransactionHelper.sendAndConfirmTransaction env_lapsing 3
     = Some helper_lapsing_run /\
   last_signature (trace helper_lapsing_run) None = Some sigA /\
   sends (trace helper_lapsing_run) = 3%nat /\
   In (EvCatch 3 stale_blockhash) (trace helper_lapsing_run) /\
   isBlockhashError stale_blockhash = true /\
   result helper_lapsing_run = Throw stale_blockhash /\
   surfaces sigA (result helper_lapsing_run) = false).
Proof.
  split; repeat split; try reflexivity; simpl; auto 30.
Qed.

(** C4 (amended): on success the value returned is the last signature
    observed.  On failure nothing is added to the error.  When the send of
    attempt a has returned a signature and its confirmation times out (the
    attempts before it having ended with blockhash errors, which is how
    attempt a is reached), the call rejects with the fixed 'Transaction
    confirmation timeout' error, in which no signature (no text of more
    than 32 characters) occurs.  When the retries are exhausted or another
    error ends the call after the loop body ran, the value thrown is the
    very error the failing step of the last attempt produced, so the
    caller can read a signature off it exactly when that error's own
    message contains it. *)
Theorem C4_failure_carries_only_the_caught_error (env : Z -> AttemptEnv)
    (maxRetries : Z) (r : Run) :
  TransactionHelper.sendAndConfirmTransaction env maxRetries = Some r \/
  TransactionUtility.sendTransactionWithRetry env maxRetries = Some r ->
  (forall sig, result r = Return sig ->
     last_signature (trace r) None = Some sig) /\
  (forall a sig (errs : Z -> JsError),
     (1 <= a <= maxRetries)%Z ->
     (forall b, (1 <= b < a)%Z ->
        attempt_error env b = Some (errs b) /\
        isBlockhashError (errs b) = true) ->
     env a = SendReturns sig ConfirmTimeout ->
     In (EvSignature a sig) (trace r) /\
     result r = Throw (new_Error "Transaction confirmation timeout") /\
     forall s, (32 < String.length s)%nat -> surfaces s (result r) = false) /\
  (forall e, result r = Throw e ->
     ((exists pre a t,
         trace r = pre ++ [EvCatch a e; EvToastError t] /\
         attempt_error env a = Some e) \/
      (trace r = [] /\ (maxRetries <= 0)%Z /\
       e = new_Error "Transaction failed for unknown reason")) /\
     forall s, surfaces s (result r) = message_includes e s).
Proof.
  intros Hrun.
  destruct (either_run_steps _ _ _ Hrun) as (catch & Hsteps & Hretry & Hrethrow).
  split; [|split].
  - intros sig Hres. exact (steps_return catch env maxRetries _ _ Hsteps sig None Hres).
  - intros a sig errs Ha Hfail Henv.
    destruct (steps_reaches_timer catch env maxRetries Hrethrow _ _ Hsteps
                a sig errs) as [Hsig Hin]; simpl;
      [lia|intros b Hb; apply Hfail; lia|exact Henv|].
    apply (steps_timer catch env maxRetries _ _ Hsteps) in Hin.
    pose proof (proj1 (steps_caught_terminal catch env maxRetries Hretry _ _
                         Hsteps a timeout_error Hin
                         (or_introl timeout_not_blockhash))) as Hres.
    split; [exact Hsig|]. split; [exact Hres|].
    intros s Hlen. rewrite Hres.
    change (surfaces s (Throw timeout_error))
      with (includes s "Transaction confirmation timeout").
    destruct (includes s "Transaction confirmation timeout") eqn:Hinc;
      [|reflexivity].
    apply includes_length_le in Hinc. simpl in Hinc. lia.
  - intros e Hres. split; [|now rewrite Hres].
    destruct (steps_throw catch env maxRetries Hretry _ _ Hsteps e Hres)
      as [(pre & a & t & Htrace)|Hempty]; [left|right; exact Hempty].
    exists pre, a, t. split; [exact Htrace|].
    apply (steps_catch_error catch env maxRetries _ _ Hsteps).
    rewrite Htrace. apply in_or_app. right. now left.
Qed.

Lemma C4_failure_carries_only_the_caught_error_witness :
  (TransactionHelper.sendAndConfirmTransaction env_timeout 3
     = Some helper_timeout_run \/
   TransactionUtility.sendTransactionWithRetry env_timeout 3
     = Some helper_timeout_run) /\
  (1 <= 1 <= 3)%Z /\
  env_timeout 1 = SendReturns sigA ConfirmTimeout /\
  (32 < String.length sigA)%nat /\
  In (EvSignature 1 sigA) (trace helper_timeout_run) /\
  result helper_timeout_run
    = Throw (new_Error "Transaction confirmation timeout") /\
  surfaces sigA (result helper_timeout_run) = false.
Proof.
  assert (Hrun : TransactionHelper.sendAndConfirmTransaction env_timeout 3
                 = Some helper_timeout_run) by reflexivity.
  assert (Ha : (1 <= 1 <= 3)%Z) by lia.
  assert (Hfail : forall b, (1 <= b < 1)%Z ->
            attempt_error env_timeout b = Some (timeout_error) /\
            isBlockhashError timeout_error = true) by (intros b Hb; lia).
  assert (Henv : env_timeout 1 = SendReturns sigA ConfirmTimeout)
    by reflexivity.
  assert (Hlen : (32 < String.length sigA)%nat) by (vm_compute; lia).
  destruct (C4_failure_carries_only_the_caught_error env_timeout 3
              helper_timeout_run (or_introl Hrun))
    as (_ & Htimer & _).
  destruct (Htimer 1%Z sigA (fun _ => timeout_error) Ha Hfail Henv)
    as (Hsig & Hres & Hdrop).
  exact (conj (or_introl Hrun)
           (conj Ha (conj Henv (conj Hlen
              (conj Hsig (conj Hres (Hdrop sigA Hlen))))))).
Defined.

(** ** Insufficient funds *)

(** The negation of C7 at a concrete request: the first send fails with a
    message that contains 'insufficient funds' and also 'blockhash not
    found'; two attempts remain, and the loop waits and sends again. *)
Lemma C7_counterexample :
  TransactionHelper.sendAndConfirmTransaction env_ambiguous 3
    = Some helper_ambiguous_run /\
  In (EvCatch 1 ambiguous) (trace helper_ambiguous_run) /\
  message_includes ambiguous "insufficient funds" = true /\
  In (EvSleep 1 1000) (trace helper_ambiguous_run) /\
  In (EvSend 2) (trace helper_ambiguous_run) /\
  result helper_ambiguous_run = Return sigA.
Proof.
  repeat split; try reflexivity; simpl; auto 20.
Qed.

Lemma helper_catch_insufficient maxRetries a e :
  message_includes e "insufficient funds" = true ->
  isBlockhashError e = false \/ (maxRetries <= a)%Z ->
  TransactionHelper.catch_block maxRetries a e =
    Rethrow (if message_includes e "Token Account not found"
             then "Token account not found. Account may need to be created first."
             else "Insufficient funds for transaction.").
Proof.
  intros Hm Hterm. unfold TransactionHelper.catch_block.
  assert (Hfirst : isBlockhashError e && (a <? maxRetries)%Z = false).
  { destruct Hterm as [->|Hge]; [reflexivity|].
    apply andb_false_iff. right. now apply Z.ltb_ge. }
  rewrite Hfirst, Hm.
  destruct (message_includes e "Token Account not found"); reflexivity.
Qed.

(** C7 (amended): if an attempt of sendAndConfirmTransaction fails with an
    error whose message contains 'insufficient funds', and the message
    matches no blockhash-error pattern or no attempt remains, the function
    shows the error toast and throws that same error at once: the run has
    no event of a later attempt, however many attempts remain. *)
Theorem C7_insufficient_funds_is_terminal (env : Z -> AttemptEnv)
    (maxRetries : Z) (r : Run) (a : Z) (e : JsError) :
  TransactionHelper.sendAndConfirmTransaction env maxRetries = Some r ->
  In (EvCatch a e) (trace r) ->
  message_includes e "insufficient funds" = true ->
  isBlockhashError e = false \/ (maxRetries <= a)%Z ->
  result r = Throw e /\
  (forall ev b, In ev (trace r) -> tag ev = Some b -> (b <= a)%Z) /\
  ~ In (EvBlockhash (a + 1)) (trace r) /\
  In (EvToastError
        (if message_includes e "Token Account not found"
         then "Token account not found. Account may need to be created first."
         else "Insufficient funds for transaction."))
     (trace r).
Proof.
  intros Hrun Hin Hm Hterm.
  apply sendAndConfirmTransaction_steps in Hrun.
  destruct (steps_caught_terminal _ env maxRetries
              (helper_catch_retry maxRetries) _ _ Hrun a e Hin Hterm)
    as (Hres & Htags & t & Hc & Ht).
  rewrite (helper_catch_insufficient maxRetries a e Hm Hterm) in Hc.
  injection Hc as <-.
  split; [exact Hres|]. split; [exact Htags|]. split; [|exact Ht].
  intros Hnext. specialize (Htags _ (a + 1)%Z Hnext eq_refl). lia.
Qed.

Lemma C7_insufficient_funds_is_terminal_witness :
  TransactionHelper.sendAndConfirmTransaction env_insufficient 3
    = Some helper_insufficient_run /\
  In (EvCatch 1 insufficient) (trace helper_insufficient_run) /\
  message_includes insufficient "insufficient funds" = true /\
  (isBlockhashError insufficient = false \/ (3 <= 1)%Z) /\
  result helper_insufficient_run = Throw insufficient /\
  ~ In (EvBlockhash (1 + 1)) (trace helper_insufficient_run).
Proof.
  assert (Hrun : TransactionHelper.sendAndConfirmTransaction env_insufficient 3
                 = Some helper_insufficient_run) by reflexivity.
  assert (Hin : In (EvCatch 1 insufficient) (trace helper_insufficient_run))
    by (simpl; auto 20).
  assert (Hm : message_includes insufficient "insufficient funds" = true)
    by reflexivity.
  assert (Hb : isBlockhashError insufficient = false \/ (3 <= 1)%Z)
    by (left; reflexivity).
  pose proof (C7_insufficient_funds_is_terminal env_insufficient 3
                helper_insufficient_run 1 insufficient Hrun Hin Hm Hb)
    as (Hres & _ & Hnext & _).
  exact (conj Hrun (conj Hin (conj Hm (conj Hb (conj Hres Hnext))))).
Defined.

(** ** Token account creation *)

(** C6: when getOrCreateAssociatedTokenAccount reaches the creation and
    sendAndConfirmTransaction rejects with an error that has a message, the
    function settles; it returns the associated token address when the
    message contains 'already in use', and otherwise shows the failure
    toast and rethrows that same error. *)
Theorem C6_already_in_use_is_success
    (getAssociatedTokenAddress :
       TokenHelper.PublicKey -> TokenHelper.PublicKey -> Outcome TokenHelper.PublicKey)
    (info : TokenHelper.AccountInfo) (env : Z -> AttemptEnv)
    (mint owner address : TokenHelper.PublicKey)
    (sent : Run) (error : JsError) (m : string) :
  getAssociatedTokenAddress mint owner = Return address ->
  info <> TokenHelper.AccountFound ->
  TransactionHelper.sendAndConfirmTransaction env 3 = Some sent ->
  result sent = Throw error ->
  message error = Some m ->
  exists r,
    TokenHelper.getOrCreateAssociatedTokenAccount
      getAssociatedTokenAddress info env mint owner = Some r /\
    (includes "already in use" m = true -> result r = Return address) /\
    (includes "already in use" m = false ->
       result r = Throw error /\
       In (EvToastError (String.append "Failed to create token account: " m))
          (trace r)).
Proof.
  intros Haddr Hinfo Hsent Hres Hm.
  unfold TokenHelper.getOrCreateAssociatedTokenAccount.
  rewrite Haddr.
  assert (Hcreate :
    TokenHelper.create_account getAssociatedTokenAddress env mint owner address
    = Some (TokenHelper.catch_block getAssociatedTokenAddress mint owner
              (trace sent) error)).
  { unfold TokenHelper.create_account. rewrite Hsent, Hres. reflexivity. }
  exists (TokenHelper.catch_block getAssociatedTokenAddress mint owner
            (trace sent) error).
  split.
  - destruct info; [contradiction|exact Hcreate|exact Hcreate].
  - unfold TokenHelper.catch_block. rewrite Hm.
    destruct (includes "already in use" m); simpl.
    + rewrite Haddr. split; [reflexivity|discriminate].
    + split; [discriminate|]. intros _. split; [reflexivity|].
      apply in_or_app. right. now left.
Qed.

Lemma C6_already_in_use_is_success_witness :
  derive_ata "mint" "owner" = Return "mint/owner" /\
  TokenHelper.AccountMissing <> TokenHelper.AccountFound /\
  TransactionHelper.sendAndConfirmTransaction env_in_use 3
    = Some helper_in_use_run /\
  result helper_in_use_run = Throw in_use /\
  message in_use
    = Some "Allocate: account Address { address: 4Nd1m } already in use" /\
  exists r,
    TokenHelper.getOrCreateAssociatedTokenAccount
      derive_ata TokenHelper.AccountMissing env_in_use "mint" "owner" = Some r /\
    (includes "already in use"
       "Allocate: account Address { address: 4Nd1m } already in use" = true ->
     result r = Return "mint/owner").
Proof.
  assert (H1 : derive_ata "mint" "owner" = Return "mint/owner") by reflexivity.
  assert (H2 : TokenHelper.AccountMissing <> TokenHelper.AccountFound)
    by discriminate.
  assert (H3 : TransactionHelper.sendAndConfirmTransaction env_in_use 3
               = Some helper_in_use_run) by reflexivity.
  assert (H4 : result helper_in_use_run = Throw in_use) by reflexivity.
  assert (H5 : message in_use
               = Some "Allocate: account Address { address: 4Nd1m } already in use")
    by reflexivity.
  destruct (C6_already_in_use_is_success derive_ata TokenHelper.AccountMissing
              env_in_use "mint" "owner" "mint/owner" helper_in_use_run in_use _
              H1 H2 H3 H4 H5) as (r & Hr & Hyes & _).
  refine (conj H1 (conj H2 (conj H3 (conj H4 (conj H5 _))))).
  exists r. split; [exact Hr | exact Hyes].
Defined.

(** ** Transaction history *)

Lemma after_from acc actions :
  TransactionStore.transactions
    (TransactionStore.after actions
       {| TransactionStore.transactions := take 50 (rev acc) |})
  = take 50 (rev (TransactionStore.added_since_clear actions acc)).
Proof.
  revert acc. induction actions as [|[t|] actions IH]; intros acc; simpl.
  - reflexivity.
  - unfold TransactionStore.after in *. simpl.
    unfold TransactionStore.addTransaction at 1. simpl.
    rewrite <- IH. do 2 f_equal.
    rewrite rev_app_distr. simpl. f_equal.
    rewrite take_take. f_equal.
  - unfold TransactionStore.after in *. simpl.
    unfold TransactionStore.clearTransactions at 1.
    exact (IH []).
Qed.

(** C10: after any sequence of addTransaction and clearTransactions from
    the empty store, the list holds at most 50 transactions and is the
    newest 50 of those added since the last clear, newest first. *)
Theorem C10_history_bounded_newest_first
    (actions : list TransactionStore.Action) :
  (length (TransactionStore.transactions
             (TransactionStore.after actions TransactionStore.empty_store))
   <= 50)%nat /\
  TransactionStore.transactions
    (TransactionStore.after actions TransactionStore.empty_store)
  = take 50 (rev (TransactionStore.added_since_clear actions [])).
Proof.
  pose proof (after_from [] actions) as H. simpl in H.
  change {| TransactionStore.transactions := [] |}
    with TransactionStore.empty_store in H.
  split; [|exact H].
  rewrite H, length_take. lia.
Qed.

(** ** Connection pool *)

Section Pool.

Import ConnectionHelper.

Variable has_window : bool.
Variable constructible : string -> string -> bool.

Lemma push_connections_fields n endpoint : forall st,
  connectionInitialized (push_connections n endpoint st)
    = connectionInitialized st /\
  connectionCache (push_connections n endpoint st) = connectionCache st /\
  length (connectionPool (push_connections n endpoint st))
    = (length (connectionPool st) + n)%nat.
Proof.
  induction n as [|n IH]; intros st; simpl.
  - repeat split. lia.
  - destruct (IH (push_connection endpoint st)) as (H1 & H2 & H3).
    rewrite H1, H2, H3. simpl. rewrite length_app. simpl.
    repeat split. lia.
Qed.

Lemma initConnectionPool_twice e1 n1 e2 n2 st :
  initConnectionPool has_window constructible e2 n2
    (initConnectionPool has_window constructible e1 n1 st)
  = initConnectionPool has_window constructible e1 n1 st.
Proof.
  unfold initConnectionPool.
  destruct has_window; simpl; [|reflexivity].
  destruct (connectionInitialized st) eqn:Hinit; simpl.
  - now rewrite Hinit.
  - destruct (constructible e1 "confirmed"); simpl; [|reflexivity].
    now rewrite (proj1 (push_connections_fields _ _ _)).
Qed.

Lemma run_cons op rest st :
  run has_window constructible (op :: rest) st
  = (fst (step has_window constructible op st)
       :: fst (run has_window constructible rest
                 (snd (step has_window constructible op st))),
     snd (run has_window constructible rest
            (snd (step has_window constructible op st)))).
Proof.
  simpl. destruct (step has_window constructible op st) as [r st'].
  simpl. destruct (run has_window constructible rest st') as [rs st''].
  reflexivity.
Qed.

Lemma step_pool op st :
  consistent st ->
  consistent (snd (step has_window constructible op st)) /\
  (length (connectionPool (snd (step has_window constructible op st)))
   <= Nat.max (length (connectionPool st))
        (Z.to_nat (match requested_size op with Some n => n | None => 0%Z end)))%nat.
Proof.
  intros Hc.
  assert (Hinit : forall e n,
    consistent (initConnectionPool has_window constructible e n st) /\
    (length (connectionPool (initConnectionPool has_window constructible e n st))
     <= Nat.max (length (connectionPool st)) (Z.to_nat n))%nat).
  { intros e n. unfold initConnectionPool.
    destruct has_window; simpl; [|split; [exact Hc|lia]].
    destruct (connectionInitialized st) eqn:Hi; [split; [exact Hc|lia]|].
    destruct (constructible e "confirmed").
    - destruct (push_connections_fields (Z.to_nat n) e
        {| connectionCache := connectionCache st;
           connectionPool := connectionPool st;
           connectionInitialized := true;
           constructed := constructed st |}) as (H1 & _ & H3).
      split.
      + unfold consistent. rewrite H1. simpl. discriminate.
      + rewrite H3. simpl. rewrite (Hc Hi). simpl. lia.
    - split; [unfold consistent; simpl; discriminate|simpl; lia]. }
  destruct op as [e n|e|e c]; simpl.
  - apply Hinit.
  - apply (Hinit e 2%Z).
  - unfold getCachedConnection.
    destruct (connectionPool st) as [|first rest] eqn:Hp; simpl.
    + destruct (connectionCache st !! cache_key e c); simpl;
        [|destruct (constructible e c); simpl];
        unfold consistent; simpl; rewrite ?Hp; simpl; split; auto; lia.
    + split; [exact Hc|]. rewrite Hp. simpl. lia.
Qed.

Lemma run_pool ops : forall st,
  consistent st ->
  consistent (snd (run has_window constructible ops st)) /\
  (length (connectionPool (snd (run has_window constructible ops st)))
   <= Nat.max (length (connectionPool st)) (Z.to_nat (largest_request ops)))%nat.
Proof.
  induction ops as [|op rest IH]; intros st Hc.
  - simpl. split; [exact Hc|lia].
  - rewrite run_cons. simpl.
    destruct (step_pool op st Hc) as [Hc' Hlen].
    destruct (IH _ Hc') as [Hc'' Hlen'].
    split; [exact Hc''|].
    destruct (requested_size op) as [size|]; lia.
Qed.

(** Once the pool is filled, no call changes the state, and every
    [getCachedConnection] hands out its first connection. *)
Lemma run_filled first others ops : forall st,
  consistent st -> connectionPool st = first :: others ->
  run has_window constructible ops st
  = (map (fun op => if is_get op then Some first else None) ops, st).
Proof.
  induction ops as [|op rest IH]; intros st Hc Hp; [reflexivity|].
  assert (Hstep : step has_window constructible op st
                  = (if is_get op then Some first else None, st)).
  { assert (Hi : connectionInitialized st = true).
    { destruct (connectionInitialized st) eqn:Hi; [reflexivity|].
      rewrite (Hc Hi) in Hp. discriminate Hp. }
    destruct op as [e n|e|e c]; simpl;
      unfold preWarmConnection, initConnectionPool, getCachedConnection;
      rewrite ?Hi, ?Hp; destruct has_window; reflexivity. }
  rewrite run_cons, Hstep. simpl. rewrite (IH st Hc Hp). reflexivity.
Qed.

(** With an empty pool, [getCachedConnection] answers from the cache,
    which it only extends with the key asked for. *)
Lemma get_empty_pool e c st :
  connectionPool st = [] ->
  connectionPool (snd (getCachedConnection constructible e c st)) = [] /\
  (forall x, fst (getCachedConnection constructible e c st) = Some x ->
     connectionCache (snd (getCachedConnection constructible e c st))
       !! cache_key e c = Some x) /\
  (forall k y, connectionCache st !! k = Some y ->
     connectionCache (snd (getCachedConnection constructible e c st)) !! k
     = Some y).
Proof.
  intros Hp. unfold getCachedConnection. rewrite Hp.
  destruct (connectionCache st !! cache_key e c) as [x|] eqn:Hk; simpl.
  - split; [exact Hp|]. split; [|auto]. intros x' [= <-]. exact Hk.
  - destruct (constructible e c); simpl.
    + split; [reflexivity|]. split.
      * intros x [= <-]. apply lookup_insert_eq.
      * intros k y Hy. rewrite lookup_insert_ne; [exact Hy|].
        intros <-. congruence.
    + split; [exact Hp|]. split; [discriminate|auto].
Qed.

Lemma get_cached e c st x :
  connectionPool st = [] ->
  connectionCache st !! cache_key e c = Some x ->
  fst (getCachedConnection constructible e c st) = Some x.
Proof.
  intros Hp Hk. unfold getCachedConnection. now rewrite Hp, Hk.
Qed.

Lemma gets_keep ops : forall st e c x y j,
  Forall (fun op => is_get op = true) ops ->
  connectionPool st = [] ->
  connectionCache st !! cache_key e c = Some x ->
  ops !! j = Some (Get e c) ->
  fst (run has_window constructible ops st) !! j = Some (Some y) ->
  y = x.
Proof.
  induction ops as [|op rest IH]; intros st e c x y j Hall Hp Hk Hop Hres;
    [destruct j; discriminate Hop|].
  rewrite run_cons in Hres. simpl in Hres.
  apply Forall_cons in Hall as [Hget Hall].
  destruct op as [e' n'|e'|e' c']; try discriminate Hget. simpl in Hres.
  destruct j as [|j]; simpl in Hop, Hres.
  - injection Hop as -> ->.
    rewrite (get_cached e c st x Hp Hk) in Hres. congruence.
  - destruct (get_empty_pool e' c' st Hp) as (Hp' & _ & Hkeep).
    exact (IH _ e c x y j Hall Hp' (Hkeep _ _ Hk) Hop Hres).
Qed.

Lemma gets_agree ops : forall st e c x y i j,
  Forall (fun op => is_get op = true) ops ->
  connectionPool st = [] ->
  ops !! i = Some (Get e c) -> ops !! j = Some (Get e c) ->
  fst (run has_window constructible ops st) !! i = Some (Some x) ->
  fst (run has_window constructible ops st) !! j = Some (Some y) ->
  x = y.
Proof.
  induction ops as [|op rest IH]; intros st e c x y i j Hall Hp Hi Hj Hx Hy;
    [destruct i; discriminate Hi|].
  rewrite run_cons in Hx, Hy. simpl in Hx, Hy.
  apply Forall_cons in Hall as [Hget Hall].
  destruct op as [e' n'|e'|e' c']; try discriminate Hget. simpl in Hx, Hy.
  destruct (get_empty_pool e' c' st Hp) as (Hp' & Hnew & Hkeep).
  destruct i as [|i], j as [|j]; simpl in Hi, Hj, Hx, Hy.
  - congruence.
  - injection Hi as -> ->. injection Hx as Hx.
    exact (eq_sym (gets_keep rest _ e c x y j Hall Hp' (Hnew _ Hx) Hj Hy)).
  - injection Hj as -> ->. injection Hy as Hy.
    exact (gets_keep rest _ e c y x i Hall Hp' (Hnew _ Hy) Hi Hx).
  - exact (IH _ e c x y i j Hall Hp' Hi Hj Hx Hy).
Qed.

End Pool.

(** The negation of C8 at a concrete sequence of calls in a browser:
    getCachedConnection, initConnectionPool, getCachedConnection, with the
    same endpoint and commitment.  The first call hands out the cached
    connection it constructs, the second the first connection of the pool:
    two different objects. *)
Lemma C8_counterexample :
  fst (ConnectionHelper.run true accepts_http calls_around_init ConnectionHelper.empty_state)
  = [Some {| ConnectionHelper.conn_id := 0;
             ConnectionHelper.conn_endpoint := devnet;
             ConnectionHelper.conn_commitment := "processed" |};
     None;
     Some {| ConnectionHelper.conn_id := 1;
             ConnectionHelper.conn_endpoint := devnet;
             ConnectionHelper.conn_commitment := "confirmed" |}] /\
  {| ConnectionHelper.conn_id := 0;
     ConnectionHelper.conn_endpoint := devnet;
     ConnectionHelper.conn_commitment := "processed" |}
  <> {| ConnectionHelper.conn_id := 1;
        ConnectionHelper.conn_endpoint := devnet;
        ConnectionHelper.conn_commitment := "confirmed" |}.
Proof. split; [vm_compute; reflexivity | discriminate]. Qed.

(** C8 (amended): in every state reached from the initial one, the pool
    holds no more connections than the largest size an initialising call
    asked for (2 by default); a second call to initConnectionPool changes
    nothing; and two calls to getCachedConnection with the same endpoint
    and commitment return the same connection object provided the pool is
    already filled before the first of them, or no pool initialisation
    happens between them. *)
Theorem C8_pool_bounded_idempotent_stable (has_window : bool)
    (constructible : string -> string -> bool)
    (before ops : list ConnectionHelper.Op) :
  let st := snd (ConnectionHelper.run has_window constructible before
                   ConnectionHelper.empty_state) in
  (length (ConnectionHelper.connectionPool st)
   <= Z.to_nat (ConnectionHelper.largest_request before))%nat /\
  (forall e1 n1 e2 n2 s,
     ConnectionHelper.initConnectionPool has_window constructible e2 n2
       (ConnectionHelper.initConnectionPool has_window constructible e1 n1 s)
     = ConnectionHelper.initConnectionPool has_window constructible e1 n1 s) /\
  (ConnectionHelper.connectionPool st <> [] \/
   Forall (fun op => ConnectionHelper.is_get op = true) ops ->
   forall i j e c x y,
     ops !! i = Some (ConnectionHelper.Get e c) ->
     ops !! j = Some (ConnectionHelper.Get e c) ->
     fst (ConnectionHelper.run has_window constructible ops st) !! i = Some (Some x) ->
     fst (ConnectionHelper.run has_window constructible ops st) !! j = Some (Some y) ->
     x = y).
Proof.
  intros st.
  assert (Hempty : ConnectionHelper.consistent ConnectionHelper.empty_state)
    by (intros _; reflexivity).
  destruct (run_pool has_window constructible before _ Hempty) as [Hc Hlen].
  fold st in Hc, Hlen. simpl in Hlen.
  split; [exact Hlen|]. split; [apply initConnectionPool_twice|].
  intros Hcase i j e c x y Hi Hj Hx Hy.
  destruct (ConnectionHelper.connectionPool st) as [|first others] eqn:Hp.
  - destruct Hcase as [Hne|Hall]; [contradiction|].
    exact (gets_agree has_window constructible ops st e c x y i j Hall Hp Hi Hj Hx Hy).
  - rewrite (run_filled has_window constructible first others ops st Hc Hp) in Hx, Hy.
    simpl in Hx, Hy.
    rewrite list_lookup_fmap, Hi in Hx. rewrite list_lookup_fmap, Hj in Hy.
    simpl in Hx, Hy. congruence.
Qed.

Lemma C8_pool_bounded_idempotent_stable_witness :
  (ConnectionHelper.connectionPool filled_state <> [] \/
   Forall (fun op => ConnectionHelper.is_get op = true) calls_after_init) /\
  (length (ConnectionHelper.connectionPool filled_state) <= 2)%nat /\
  forall x y,
    fst (ConnectionHelper.run true accepts_http calls_after_init filled_state) !! 0%nat
      = Some (Some x) ->
    fst (ConnectionHelper.run true accepts_http calls_after_init filled_state) !! 2%nat
      = Some (Some y) ->
    x = y.
Proof.
  assert (Hfilled : ConnectionHelper.connectionPool filled_state <> [] \/
            Forall (fun op => ConnectionHelper.is_get op = true) calls_after_init)
    by (left; discriminate).
  destruct (C8_pool_bounded_idempotent_stable true accepts_http
              [ConnectionHelper.Init devnet 2] calls_after_init)
    as (Hlen & _ & Hsame).
  refine (conj Hfilled (conj Hlen _)).
  intros x y Hx Hy.
  exact (Hsame Hfilled 0%nat 2%nat devnet "processed" x y eq_refl eq_refl Hx Hy).
Defined.

(** ** Confirmation polling *)

Lemma pow15_succ k :
  ((3 # 2) ^ Z.of_nat (S k) == (3 # 2) * (3 # 2) ^ Z.of_nat k)%Q.
Proof.
  rewrite Nat2Z.inj_succ, <- Z.add_1_l.
  rewrite Qpower_plus by discriminate. reflexivity.
Qed.

Lemma pow15_ge1 k : (1 <= (3 # 2) ^ Z.of_nat k)%Q.
Proof.
  induction k as [|k IH].
  - simpl. lra.
  - rewrite pow15_succ. nra.
Qed.

Lemma poll_delay_bounds k :
  (1000 <= TokenCreator.poll_delay k)%Q /\
  (TokenCreator.poll_delay k <= TokenCreator.poll_delay (S k))%Q /\
  (TokenCreator.poll_delay k <= 10000)%Q.
Proof.
  unfold TokenCreator.poll_delay.
  pose proof (pow15_ge1 k) as Hk.
  split; [|split].
  - apply Q.min_glb; lra.
  - apply Q.min_le_compat_r. rewrite pow15_succ. lra.
  - apply Q.le_min_r.
Qed.

Lemma poll_loop_timeout startTime now answer timeoutMs n :
  forall fuel first,
    (forall k, (k < n)%nat ->
       (now (first + k)%nat - startTime < timeoutMs)%Z /\
       answer (first + k)%nat = None) ->
    (timeoutMs <= now (first + n)%nat - startTime)%Z ->
    (n < fuel)%nat ->
    TokenCreator.loop startTime now answer timeoutMs fuel first
    = Some {| TokenCreator.polls :=
                flat_map (fun k => [TokenCreator.EvPoll k;
                                    TokenCreator.EvWait k (TokenCreator.poll_delay k)])
                         (seq first n);
              TokenCreator.settled :=
                TokenCreator.Thrown (TokenCreator.timed_out timeoutMs) |}.
Proof.
  induction n as [|n IH]; intros fuel first Hfail Hdead Hfuel;
    (destruct fuel as [|fuel]; [lia|]); simpl.
  - rewrite Nat.add_0_r in Hdead.
    apply Z.ltb_ge in Hdead. now rewrite Hdead.
  - destruct (Hfail 0%nat) as [Hlt Hnone]; [lia|].
    rewrite Nat.add_0_r in Hlt, Hnone.
    apply Z.ltb_lt in Hlt. rewrite Hlt, Hnone.
    rewrite (IH fuel (S first)); [reflexivity| | |lia].
    + intros k Hk. replace (S first + k)%nat with (first + S k)%nat by lia.
      apply Hfail. lia.
    + now replace (S first + n)%nat with (first + S n)%nat by lia.
Qed.

Lemma poll_loop_confirmed startTime now answer timeoutMs n c :
  forall fuel first,
    (forall k, (k < n)%nat ->
       (now (first + k)%nat - startTime < timeoutMs)%Z /\
       answer (first + k)%nat = None) ->
    (now (first + n)%nat - startTime < timeoutMs)%Z ->
    answer (first + n)%nat = Some c ->
    (n < fuel)%nat ->
    TokenCreator.loop startTime now answer timeoutMs fuel first
    = Some {| TokenCreator.polls :=
                flat_map (fun k => [TokenCreator.EvPoll k;
                                    TokenCreator.EvWait k (TokenCreator.poll_delay k)])
                         (seq first n)
                ++ [TokenCreator.EvPoll (first + n)];
              TokenCreator.settled := TokenCreator.Confirmation c |}.
Proof.
  induction n as [|n IH]; intros fuel first Hfail Hlive Hans Hfuel;
    (destruct fuel as [|fuel]; [lia|]); simpl.
  - rewrite Nat.add_0_r in Hlive, Hans |- *.
    apply Z.ltb_lt in Hlive. now rewrite Hlive, Hans.
  - destruct (Hfail 0%nat) as [Hlt Hnone]; [lia|].
    rewrite Nat.add_0_r in Hlt, Hnone.
    apply Z.ltb_lt in Hlt. rewrite Hlt, Hnone.
    rewrite (IH fuel (S first)); [|  | | |lia].
    + replace (first + S n)%nat with (S first + n)%nat by lia. reflexivity.
    + intros k Hk. replace (S first + k)%nat with (first + S k)%nat by lia.
      apply Hfail. lia.
    + now replace (S first + n)%nat with (first + S n)%nat by lia.
    + now replace (S first + n)%nat with (first + S n)%nat by lia.
Qed.

(** The negation of C9 at a concrete timeline with the timeout of 90
    seconds: the first two polls fail, the third is started 64 seconds
    after the start and answers 94 seconds after it.  When 90 seconds have
    elapsed no result has been obtained, yet the function returns the
    confirmation instead of throwing. *)
Lemma C9_counterexample :
  in_order busy_clock busy_settled /\
  no_result_by (1700000000000 + 90000) third_answer busy_settled /\
  TokenCreator.confirmTransactionWithExponentialBackoff
    1700000000000 busy_clock third_answer 90000 5
  = Some {| TokenCreator.polls := failed_polls 2 ++ [TokenCreator.EvPoll 2];
            TokenCreator.settled :=
              TokenCreator.Confirmation
                {| TokenCreator.slot := 1234; TokenCreator.err := None |} |}.
Proof.
  split; [|split].
  - intros r. unfold busy_settled, busy_clock. lia.
  - intros r c. unfold third_answer, busy_settled, busy_clock.
    destruct (r =? 2)%nat eqn:Hr; [|discriminate].
    apply Nat.eqb_eq in Hr. subst r. intros _. lia.
  - reflexivity.
Qed.

(** C9 (amended): when the first n polls are made before the deadline and
    all fail, confirmTransactionWithExponentialBackoff waits
    min(1000 * 1.5^r, 10000) milliseconds after the failed poll numbered r
    (from 0), a delay that is at least 1000, non-decreasing in r and at
    most 10000.  The clock is read only before a poll: if the reading that
    follows finds timeoutMs elapsed, the function throws the 'Transaction
    confirmation timed out' error and returns no result; if it does not,
    the next poll is made and is not interrupted, and when it answers, that
    answer is returned, however late it arrives. *)
Theorem C9_poll_backoff_and_timeout (startTime : Z) (now : nat -> Z)
    (answer : nat -> option TokenCreator.SignatureResult) (timeoutMs : Z)
    (n fuel : nat) :
  (forall k, (k < n)%nat ->
     (now k - startTime < timeoutMs)%Z /\ answer k = None) ->
  (n < fuel)%nat ->
  let waits :=
    flat_map (fun r => [TokenCreator.EvPoll r;
                        TokenCreator.EvWait r
                          (Qmin (1000 * (3 # 2) ^ Z.of_nat r) 10000)])
             (seq 0 n) in
  ((timeoutMs <= now n - startTime)%Z ->
   TokenCreator.confirmTransactionWithExponentialBackoff
     startTime now answer timeoutMs fuel
   = Some {| TokenCreator.polls := waits;
             TokenCreator.settled :=
               TokenCreator.Thrown
                 (new_Error (String.append "Transaction confirmation timed out after "
                               (String.append (pretty timeoutMs) "ms"))) |}) /\
  (forall c, (now n - startTime < timeoutMs)%Z -> answer n = Some c ->
   TokenCreator.confirmTransactionWithExponentialBackoff
     startTime now answer timeoutMs fuel
   = Some {| TokenCreator.polls := waits ++ [TokenCreator.EvPoll n];
             TokenCreator.settled := TokenCreator.Confirmation c |}) /\
  (forall r,
     (1000 <= Qmin (1000 * (3 # 2) ^ Z.of_nat r) 10000)%Q /\
     (Qmin (1000 * (3 # 2) ^ Z.of_nat r) 10000
      <= Qmin (1000 * (3 # 2) ^ Z.of_nat (S r)) 10000)%Q /\
     (Qmin (1000 * (3 # 2) ^ Z.of_nat r) 10000 <= 10000)%Q).
Proof.
  intros Hfail Hfuel waits.
  split; [|split].
  - intros Hdead.
    exact (poll_loop_timeout startTime now answer timeoutMs n fuel 0%nat
             Hfail Hdead Hfuel).
  - intros c Hlive Hans.
    exact (poll_loop_confirmed startTime now answer timeoutMs n c fuel 0%nat
             Hfail Hlive Hans Hfuel).
  - intros r. exact (poll_delay_bounds r).
Qed.

Lemma C9_poll_backoff_and_timeout_witness :
  (forall k, (k < 3)%nat ->
     (silent_clock k - 1700000000000 < 90000)%Z /\ silent_answer k = None) /\
  (3 < 4)%nat /\
  ((90000 <= silent_clock 3 - 1700000000000)%Z ->
   TokenCreator.confirmTransactionWithExponentialBackoff
     1700000000000 silent_clock silent_answer 90000 4
   = Some {| TokenCreator.polls :=
               flat_map (fun r => [TokenCreator.EvPoll r;
                                   TokenCreator.EvWait r
                                     (Qmin (1000 * (3 # 2) ^ Z.of_nat r) 10000)])
                        (seq 0 3);
             TokenCreator.settled :=
               TokenCreator.Thrown
                 (new_Error (String.append "Transaction confirmation timed out after "
                               (String.append (pretty 90000%Z) "ms"))) |}).
Proof.
  assert (Hfail : forall k, (k < 3)%nat ->
            (silent_clock k - 1700000000000 < 90000)%Z /\ silent_answer k = None)
    by (intros k Hk; unfold silent_clock, silent_answer; split; [lia|reflexivity]).
  assert (Hfuel : (3 < 4)%nat) by lia.
  exact (conj Hfail (conj Hfuel
           (proj1 (C9_poll_backoff_and_timeout 1700000000000 silent_clock
                     silent_answer 90000 3 4 Hfail Hfuel)))).
Defined.

(** The delays of the first seven retries, in milliseconds. *)
Example poll_delay_values :
  (TokenCreator.poll_delay 0 == 1000)%Q /\
  (TokenCreator.poll_delay 1 == 1500)%Q /\
  (TokenCreator.poll_delay 2 == 2250)%Q /\
  (TokenCreator.poll_delay 3 == 3375)%Q /\
  (TokenCreator.poll_delay 4 == 50625 # 10)%Q /\
  (TokenCreator.poll_delay 5 == 759375 # 100)%Q /\
  (TokenCreator.poll_delay 6 == 10000)%Q.
Proof. repeat split. Qed.

(** Fifty-one additions keep the newest fifty, newest first. *)
Example history_of_51 :
  let st := TransactionStore.after
              (map (fun n => TransactionStore.Add (tx (Z.of_nat n))) (seq 1 51))
              TransactionStore.empty_store in
  length (TransactionStore.transactions st) = 50%nat /\
  map TransactionStore.timestamp (TransactionStore.transactions st)
  = map Z.of_nat (rev (seq 2 50)).
Proof. vm_compute. split; reflexivity. Qed.

(** * Further properties of the code *)

(** ** The retry loops *)

Lemma total_sleep_app t1 t2 :
  total_sleep (t1 ++ t2) = (total_sleep t1 + total_sleep t2)%Z.
Proof.
  induction t1 as [|ev t1 IH]; simpl; [reflexivity|].
  destruct ev; simpl; rewrite IH; lia.
Qed.

Lemma blockhashes_app t1 t2 :
  blockhashes (t1 ++ t2) = (blockhashes t1 + blockhashes t2)%nat.
Proof.
  induction t1 as [|ev t1 IH]; simpl; [reflexivity|].
  destruct ev; simpl; rewrite IH; reflexivity.
Qed.



Section TryBlockMore.

Variable env : Z -> AttemptEnv.

Lemma try_block_counts a sig0 evs sig err :
  try_block env a sig0 = (evs, sig, err) ->
  total_sleep evs = 0%Z /\ blockhashes evs = 1%nat /\
  (sends evs <= blockhashes evs)%nat.
Proof.
  unfold try_block.
  destruct (env a) as [e|e|e|s [|j|e|]]; intros [= <- <- <-]; simpl;
    repeat split; lia.
Qed.

Lemma try_block_send_split a sig0 evs sig err tail pre b post :
  try_block env a sig0 = (evs, sig, err) ->
  (forall c, ~ In (EvSend c) tail) ->
  evs ++ tail = pre ++ EvSend b :: post ->
  pre = [EvBlockhash a] /\ b = a.
Proof.
  intros Htry Htail. revert Htry. unfold try_block.
  destruct (env a) as [e|e|e|s [|j|e|]]; intros [= <- <- <-] Heq.
  1, 2: exfalso;
    assert (Hin : In (EvSend b) ([EvBlockhash a] ++ tail))
      by (rewrite Heq; apply in_elt);
    destruct Hin as [Hin|Hin]; [discriminate Hin | now apply Htail in Hin].
  all: pose proof Heq as Heq';
    apply (first_send_unique [EvBlockhash a]) in Heq';
    [ subst pre; simpl in Heq; injection Heq as <- _; auto
    | intros c [Hc|[]]; discriminate Hc
    | intros c Hc; simpl in Hc;
      repeat (destruct Hc as [Hc|Hc]; [discriminate Hc|]);
      now apply Htail in Hc ].
Qed.

Lemma try_block_ok a sig0 evs sig :
  try_block env a sig0 = (evs, sig, None) ->
  evs = [EvBlockhash a; EvSend a; EvSignature a sig;
         EvConfirmStart a; EvConfirmDone a].
Proof.
  unfold try_block.
  destruct (env a) as [e|e|e|s [|j|e|]]; simpl; intros H;
    inversion H; reflexivity.
Qed.

End TryBlockMore.

Section StepsMore.

Variable catch : Z -> JsError -> CatchDecision.
Variable env : Z -> AttemptEnv.
Variable maxRetries : Z.

Hypothesis catch_retry : forall a e d,
  catch a e = Retry d ->
  isBlockhashError e = true /\ (a < maxRetries)%Z /\ d = backoff_delay a.
Hypothesis catch_rethrow : forall a e t,
  catch a e = Rethrow t ->
  isBlockhashError e = false \/ (maxRetries <= a)%Z.

Ltac by_steps :=
  induction 1 as [st Hge|st evs sig Hlt Htry|st evs sig error t Hlt Htry Hc
                 |st evs sig error d r Hlt Htry Hc Hr IH]; simpl.


(** One blockhash request per attempt, and no send without one. *)
Lemma steps_blockhashes st r :
  Steps catch env maxRetries st r ->
  (sends (trace r) <= blockhashes (trace r))%nat /\
  (blockhashes (trace r) <= Z.to_nat (maxRetries - attempt st))%nat.
Proof.
  by_steps; rewrite ?sends_app, ?blockhashes_app; simpl.
  - lia.
  - destruct (try_block_counts _ _ _ _ _ _ Htry) as (_ & Hb & Hs). lia.
  - destruct (try_block_counts _ _ _ _ _ _ Htry) as (_ & Hb & Hs). lia.
  - destruct (try_block_counts _ _ _ _ _ _ Htry) as (_ & Hb & Hs).
    simpl in IH. lia.
Qed.

(** A send comes right after the blockhash request of its own attempt. *)
Lemma steps_send_after_blockhash st r :
  Steps catch env maxRetries st r ->
  forall pre a post, trace r = pre ++ EvSend a :: post ->
    exists pre', pre = pre' ++ [EvBlockhash a].
Proof.
  by_steps; intros pre a post Heq.
  - destruct pre; discriminate Heq.
  - assert (Htail : forall c, ~ In (EvSend c) [EvToastSuccess])
      by (intros c [Hc|[]]; discriminate Hc).
    destruct (try_block_send_split _ _ _ _ _ _ _ _ _ _ Htry Htail Heq)
      as [-> ->].
    now exists [].
  - assert (Htail : forall c, ~ In (EvSend c)
                      [EvCatch (attempt st + 1) error; EvToastError t])
      by (intros c [Hc'|[Hc'|[]]]; discriminate Hc').
    destruct (try_block_send_split _ _ _ _ _ _ _ _ _ _ Htry Htail Heq)
      as [-> ->].
    now exists [].
  - apply app_eq_app in Heq as [l [[Hl Hr']|[Hl Hr']]].
    + destruct l as [|x l].
      * rewrite app_nil_r in Hl. subst pre.
        destruct (steps_head catch env maxRetries _ _ Hr) as [post' Hpost];
          [apply catch_retry in Hc as (_ & Ha & _); simpl; lia|].
        rewrite Hpost in Hr'. discriminate Hr'.
      * simpl in Hr'. injection Hr' as <- Hr'.
        assert (Htail : forall c, ~ In (EvSend c)
                          [EvCatch (attempt st + 1) error;
                           EvSleep (attempt st + 1) d])
          by (intros c [Hc'|[Hc'|[]]]; discriminate Hc').
        destruct (try_block_send_split _ _ _ _ _ _ _ _ _ _ Htry Htail Hl)
          as [-> ->].
        now exists [].
    + destruct (IH l a post Hr') as [pre' ->].
      subst pre. eexists (_ ++ pre'). apply app_assoc.
Qed.

(** A returned signature is that of an attempt whose confirmation
    resolved without error, and that attempt is the last thing the run
    did. *)
Lemma steps_return_shape st r :
  Steps catch env maxRetries st r ->
  forall sig, result r = Return sig ->
    exists pre a,
      trace r = pre ++ [EvBlockhash a; EvSend a; EvSignature a sig;
                        EvConfirmStart a; EvConfirmDone a; EvToastSuccess].
Proof.
  by_steps; intros sig' Hres; try discriminate Hres.
  - injection Hres as <-. rewrite (try_block_ok _ _ _ _ _ Htry).
    now exists [], (attempt st + 1)%Z.
  - destruct (IH sig' Hres) as (pre & a & ->).
    eexists (_ ++ pre), a. apply app_assoc.
Qed.

(** When every attempt up to the last returns a signature and then fails
    to confirm with a blockhash error, the run sends once per attempt and
    throws the error of the last attempt. *)
Lemma steps_exhausted (sigs : Z -> string) (errs : Z -> JsError) st r :
  Steps catch env maxRetries st r ->
  (forall a, (attempt st < a <= maxRetries)%Z ->
     env a = SendReturns (sigs a) (ConfirmThrows (errs a)) /\
     isBlockhashError (errs a) = true) ->
  sends (trace r) = Z.to_nat (maxRetries - attempt st) /\
  total_sleep (trace r)
    = backoff_budget (Z.to_nat (maxRetries - 1 - attempt st)) (attempt st + 1) /\
  ((attempt st < maxRetries)%Z ->
   result r = Throw (errs maxRetries) /\
   forall acc, last_signature (trace r) acc = Some (sigs maxRetries)).
Proof.
  by_steps; intros Henv.
  - replace (Z.to_nat (maxRetries - attempt st)) with 0%nat by lia.
    replace (Z.to_nat (maxRetries - 1 - attempt st)) with 0%nat by lia.
    split; [reflexivity|]. split; [reflexivity|]. intros Hlt. lia.
  - exfalso. destruct (Henv (attempt st + 1)%Z) as [He _]; [lia|].
    unfold try_block in Htry. rewrite He in Htry. discriminate Htry.
  - destruct (Henv (attempt st + 1)%Z) as [He Hb]; [lia|].
    unfold try_block in Htry. rewrite He in Htry. simpl in Htry.
    injection Htry as <- <- <-.
    apply catch_rethrow in Hc as [Hc|Hc]; [congruence|].
    assert (Hlast : (attempt st + 1)%Z = maxRetries) by lia.
    replace (Z.to_nat (maxRetries - attempt st)) with 1%nat by lia.
    replace (Z.to_nat (maxRetries - 1 - attempt st)) with 0%nat by lia.
    rewrite Hlast. simpl. repeat split.
  - destruct (Henv (attempt st + 1)%Z) as [He Hb]; [lia|].
    pose proof Htry as Htry'.
    unfold try_block in Htry'. rewrite He in Htry'. simpl in Htry'.
    injection Htry' as <- <- <-.
    pose proof Hc as Hc'. apply catch_retry in Hc' as (_ & Ha & ->).
    destruct IH as (Hs & Ht & Hl); [intros a Hrange; apply Henv; simpl in Hrange; lia|].
    simpl in Hs, Ht, Hl.
    rewrite sends_app, total_sleep_app, Hs, Ht. simpl.
    replace (Z.to_nat (maxRetries - attempt st))
      with (S (Z.to_nat (maxRetries - (attempt st + 1)))) by lia.
    replace (Z.to_nat (maxRetries - 1 - attempt st))
      with (S (Z.to_nat (maxRetries - 1 - (attempt st + 1)))) by lia.
    simpl. split; [reflexivity|]. split; [lia|].
    intros _. destruct (Hl Ha) as [Hres Hsig]. split; [exact Hres|].
    intros acc. apply Hsig.
Qed.

End StepsMore.

(** What holds of every run of a loop holds of the run both functions
    make. *)
Lemma both_settle (env : Z -> AttemptEnv) (maxRetries : Z) (P : Run -> Prop) :
  (forall catch r,
     Steps catch env maxRetries initial r ->
     (forall a e d, catch a e = Retry d ->
        isBlockhashError e = true /\ (a < maxRetries)%Z /\ d = backoff_delay a) ->
     (forall a e t, catch a e = Rethrow t ->
        isBlockhashError e = false \/ (maxRetries <= a)%Z) ->
     P r) ->
  (exists r, TransactionHelper.sendAndConfirmTransaction env maxRetries = Some r /\ P r) /\
  (exists r, TransactionUtility.sendTransactionWithRetry env maxRetries = Some r /\ P r).
Proof.
  intros HP. split.
  - destruct (sendAndConfirmTransaction_total env maxRetries) as [r Hr].
    exists r. split; [exact Hr|].
    apply (HP (TransactionHelper.catch_block maxRetries)).
    + now apply sendAndConfirmTransaction_steps.
    + apply helper_catch_retry.
    + apply helper_catch_rethrow.
  - destruct (sendTransactionWithRetry_total env maxRetries) as [r Hr].
    exists r. split; [exact Hr|].
    apply (HP (utility_catch maxRetries)).
    + now apply sendTransactionWithRetry_steps.
    + apply utility_catch_retry.
    + apply utility_catch_rethrow.
Qed.


(** X2: both functions request a blockhash once per attempt, at most
    maxRetries times in all, and every send comes immediately after the
    blockhash request of its own attempt: no transaction is sent under a
    blockhash fetched for an earlier attempt. *)
Theorem X2_fresh_blockhash_per_send (env : Z -> AttemptEnv) (maxRetries : Z) :
  let fresh r :=
    (sends (trace r) <= blockhashes (trace r))%nat /\
    (blockhashes (trace r) <= Z.to_nat maxRetries)%nat /\
    forall pre a post, trace r = pre ++ EvSend a :: post ->
      exists pre', pre = pre' ++ [EvBlockhash a] in
  (exists r, TransactionHelper.sendAndConfirmTransaction env maxRetries = Some r /\
             fresh r) /\
  (exists r, TransactionUtility.sendTransactionWithRetry env maxRetries = Some r /\
             fresh r).
Proof.
  intros fresh. apply both_settle. intros catch r Hsteps Hretry _.
  destruct (steps_blockhashes catch env maxRetries _ _ Hsteps) as [Hs Hb].
  simpl in Hb. replace (maxRetries - 0)%Z with maxRetries in Hb by lia.
  split; [exact Hs|]. split; [exact Hb|].
  exact (steps_send_after_blockhash catch env maxRetries Hretry _ _ Hsteps).
Qed.

(** X3: when either function returns a signature, the run ends with the
    attempt that produced it: blockhash request, send returning that
    signature, confirmation started and resolved without error, success
    toast.  A signature is never returned for an attempt whose
    confirmation failed or timed out. *)
Theorem X3_returned_signature_was_confirmed (env : Z -> AttemptEnv)
    (maxRetries : Z) :
  let confirmed r :=
    forall sig, result r = Return sig ->
      exists pre a,
        trace r = pre ++ [EvBlockhash a; EvSend a; EvSignature a sig;
                          EvConfirmStart a; EvConfirmDone a; EvToastSuccess] in
  (exists r, TransactionHelper.sendAndConfirmTransaction env maxRetries = Some r /\
             confirmed r) /\
  (exists r, TransactionUtility.sendTransactionWithRetry env maxRetries = Some r /\
             confirmed r).
Proof.
  intros confirmed. apply both_settle. intros catch r Hsteps _ _.
  exact (steps_return_shape catch env maxRetries _ _ Hsteps).
Qed.

(** X4: maxRetries counts attempts, not retries.  With maxRetries at most
    0 both functions reject with 'Transaction failed for unknown reason'
    without requesting a blockhash or sending anything. *)
Theorem X4_no_attempt_without_retries (env : Z -> AttemptEnv) (maxRetries : Z) :
  (maxRetries <= 0)%Z ->
  TransactionHelper.sendAndConfirmTransaction env maxRetries
    = Some {| trace := [];
              result := Throw (new_Error "Transaction failed for unknown reason") |} /\
  TransactionUtility.sendTransactionWithRetry env maxRetries
    = Some {| trace := [];
              result := Throw (new_Error "Transaction failed for unknown reason") |}.
Proof.
  intros Hle.
  unfold TransactionHelper.sendAndConfirmTransaction,
    TransactionUtility.sendTransactionWithRetry.
  simpl.
  assert (H : (0 <? maxRetries)%Z = false) by now apply Z.ltb_ge.
  rewrite H. split; reflexivity.
Qed.

Lemma X4_no_attempt_without_retries_witness :
  (0 <= 0)%Z /\
  TransactionHelper.sendAndConfirmTransaction env_confirmed 0
    = Some {| trace := [];
              result := Throw (new_Error "Transaction failed for unknown reason") |}.
Proof.
  assert (H : (0 <= 0)%Z) by lia.
  exact (conj H (proj1 (X4_no_attempt_without_retries env_confirmed 0 H))).
Defined.

(** X5: the only errors both functions absorb are blockhash errors of an
    attempt that is not the last: every error a catch block receives is
    either such an error or the very error the call rejects with. *)
Theorem X5_only_blockhash_errors_absorbed (env : Z -> AttemptEnv)
    (maxRetries : Z) :
  let absorbed r :=
    forall a e, In (EvCatch a e) (trace r) ->
      (isBlockhashError e = true /\ (a < maxRetries)%Z /\
       In (EvSleep a (backoff_delay a)) (trace r)) \/
      result r = Throw e in
  (exists r, TransactionHelper.sendAndConfirmTransaction env maxRetries = Some r /\
             absorbed r) /\
  (exists r, TransactionUtility.sendTransactionWithRetry env maxRetries = Some r /\
             absorbed r).
Proof.
  intros absorbed. apply both_settle. intros catch r Hsteps Hretry Hrethrow a e Hin.
  destruct (isBlockhashError e) eqn:Hb.
  - destruct (Z.lt_ge_cases a maxRetries) as [Ha|Ha].
    + left. split; [reflexivity|]. split; [exact Ha|].
      exact (proj1 (steps_retried catch env maxRetries Hretry Hrethrow _ _ Hsteps
                      a e Hin Hb Ha)).
    + right.
      exact (proj1 (steps_caught_terminal catch env maxRetries Hretry _ _ Hsteps
                      a e Hin (or_intror Ha))).
  - right.
    exact (proj1 (steps_caught_terminal catch env maxRetries Hretry _ _ Hsteps
                    a e Hin (or_introl Hb))).
Qed.

Lemma loops_agree (env : Z -> AttemptEnv) (maxRetries : Z) (fuel : nat) :
  forall st,
    match TransactionHelper.loop env maxRetries fuel st,
          TransactionUtility.loop env maxRetries fuel st with
    | Some r1, Some r2 =>
        result r1 = result r2 /\
        map erase_toast (trace r1) = map erase_toast (trace r2)
    | None, None => True
    | _, _ => False
    end.
Proof.
  induction fuel as [|fuel IH]; intros st; simpl; [exact I|].
  destruct (attempt st <? maxRetries)%Z eqn:Hlt; simpl; [|auto].
  destruct (try_block env (attempt st + 1) (signature st))
    as [[evs sig] [error|]]; [|auto].
  destruct (TransactionHelper.catch_block maxRetries (attempt st + 1) error)
    as [d|t] eqn:Hc;
    destruct ((attempt st + 1 <? maxRetries)%Z && isBlockhashError error) eqn:Hu.
  - apply helper_catch_retry in Hc as (_ & _ & ->).
    specialize (IH {| attempt := attempt st + 1; signature := sig;
                      lastError := Some error |}).
    destruct (TransactionHelper.loop env maxRetries fuel _) as [r1|],
             (TransactionUtility.loop env maxRetries fuel _) as [r2|];
      simpl; try exact IH.
    destruct IH as [Hres Htr]. split; [exact Hres|].
    rewrite !map_app, Htr. reflexivity.
  - exfalso. apply helper_catch_retry in Hc as (Hb & Ha & _).
    apply Z.ltb_lt in Ha. rewrite Ha, Hb in Hu. discriminate Hu.
  - exfalso. apply andb_true_iff in Hu as [Ha Hb]. apply Z.ltb_lt in Ha.
    apply helper_catch_rethrow in Hc as [Hc|Hc]; [congruence|lia].
  - simpl. split; [reflexivity|]. rewrite !map_app. reflexivity.
Qed.

(** X6: the catch blocks of sendAndConfirmTransaction and
    sendTransactionWithRetry decide alike: for the same error at the same
    attempt both retry, with the same delay, or both rethrow; the extra
    branches of the first only change the toast text.  Hence, whenever the
    awaited calls of every attempt (blockhash request, signing, send, and
    the race between the confirmation and the function's own timer) settle
    in the same way for both functions, the two settle with the same value
    after the same steps, up to the text of the final error toast. *)
Theorem X6_both_loops_agree :
  (forall maxRetries a error,
     match TransactionHelper.catch_block maxRetries a error,
           utility_catch maxRetries a error with
     | Retry d1, Retry d2 => d1 = d2
     | Rethrow _, Rethrow _ => True
     | _, _ => False
     end) /\
  (forall (env : Z -> AttemptEnv) (maxRetries : Z),
     exists r1 r2,
       TransactionHelper.sendAndConfirmTransaction env maxRetries = Some r1 /\
       TransactionUtility.sendTransactionWithRetry env maxRetries = Some r2 /\
       result r1 = result r2 /\
       map erase_toast (trace r1) = map erase_toast (trace r2)).
Proof.
  split.
  - intros maxRetries a error.
    destruct (TransactionHelper.catch_block maxRetries a error) as [d1|t1] eqn:H1;
      destruct (utility_catch maxRetries a error) as [d2|t2] eqn:H2; auto.
    + apply helper_catch_retry in H1 as (_ & _ & ->).
      apply utility_catch_retry in H2 as (_ & _ & ->). reflexivity.
    + apply helper_catch_retry in H1 as (Hb & Ha & _).
      apply utility_catch_rethrow in H2 as [H2|H2]; [congruence|lia].
    + apply utility_catch_retry in H2 as (Hb & Ha & _).
      apply helper_catch_rethrow in H1 as [H1|H1]; [congruence|lia].
  - intros env maxRetries.
    destruct (sendAndConfirmTransaction_total env maxRetries) as [r1 H1].
    destruct (sendTransactionWithRetry_total env maxRetries) as [r2 H2].
    exists r1, r2. split; [exact H1|]. split; [exact H2|].
    pose proof (loops_agree env maxRetries (S (Z.to_nat maxRetries)) initial)
      as H.
    unfold TransactionHelper.sendAndConfirmTransaction in H1.
    unfold TransactionUtility.sendTransactionWithRetry in H2.
    rewrite H1, H2 in H. exact H.
Qed.

(** X7: if every one of the maxRetries attempts returns a signature and
    then fails to confirm with a blockhash error, both functions send
    exactly maxRetries times, wait the full backoff budget, and reject with
    the error of the last attempt; the last signature a send returned is
    that of the last attempt. *)
Theorem X7_retries_exhausted (env : Z -> AttemptEnv) (maxRetries : Z)
    (sigs : Z -> string) (errs : Z -> JsError) :
  (1 <= maxRetries)%Z ->
  (forall a, (1 <= a <= maxRetries)%Z ->
     env a = SendReturns (sigs a) (ConfirmThrows (errs a)) /\
     isBlockhashError (errs a) = true) ->
  let exhausted r :=
    sends (trace r) = Z.to_nat maxRetries /\
    total_sleep (trace r) = backoff_budget (Z.to_nat (maxRetries - 1)) 1 /\
    result r = Throw (errs maxRetries) /\
    last_signature (trace r) None = Some (sigs maxRetries) in
  (exists r, TransactionHelper.sendAndConfirmTransaction env maxRetries = Some r /\
             exhausted r) /\
  (exists r, TransactionUtility.sendTransactionWithRetry env maxRetries = Some r /\
             exhausted r).
Proof.
  intros Hpos Henv exhausted. apply both_settle.
  intros catch r Hsteps Hretry Hrethrow.
  destruct (steps_exhausted catch env maxRetries Hretry Hrethrow sigs errs _ _ Hsteps)
    as (Hs & Ht & Hl).
  { intros a Ha. simpl in Ha. apply Henv. lia. }
  simpl in Hs, Ht, Hl.
  replace (maxRetries - 0)%Z with maxRetries in Hs by lia.
  replace (maxRetries - 1 - 0)%Z with (maxRetries - 1)%Z in Ht by lia.
  destruct Hl as [Hres Hsig]; [lia|].
  unfold exhausted. auto.
Qed.

Lemma X7_retries_exhausted_witness :
  (1 <= 3)%Z /\
  (forall a, (1 <= a <= 3)%Z ->
     env_expiring a = SendReturns sigA (ConfirmThrows expired) /\
     isBlockhashError expired = true) /\
  exists r, TransactionHelper.sendAndConfirmTransaction env_expiring 3 = Some r /\
            sends (trace r) = Z.to_nat 3 /\
            total_sleep (trace r) = backoff_budget (Z.to_nat (3 - 1)) 1 /\
            result r = Throw expired /\
            last_signature (trace r) None = Some sigA.
Proof.
  assert (H1 : (1 <= 3)%Z) by lia.
  assert (H2 : forall a, (1 <= a <= 3)%Z ->
            env_expiring a = SendReturns sigA (ConfirmThrows expired) /\
            isBlockhashError expired = true)
    by (intros a _; split; reflexivity).
  exact (conj H1 (conj H2
           (proj1 (X7_retries_exhausted env_expiring 3 (fun _ => sigA)
                     (fun _ => expired) H1 H2)))).
Defined.

(** ** The error texts *)

Lemma string_app_cons x a b :
  String.append (String x a) b = String x (String.append a b).
Proof. reflexivity. Qed.

Lemma string_app_nil b : String.append EmptyString b = b.
Proof. reflexivity. Qed.

Lemma string_app_assoc a b c :
  String.append (String.append a b) c = String.append a (String.append b c).
Proof.
  induction a as [|x a IH]; rewrite ?string_app_nil, ?string_app_cons;
    [reflexivity|now rewrite IH].
Qed.

Lemma string_length_app a b :
  String.length (String.append a b) = (String.length a + String.length b)%nat.
Proof.
  induction a as [|x a IH]; rewrite ?string_app_nil, ?string_app_cons; simpl;
    [reflexivity|now rewrite IH].
Qed.

Lemma substring_length_le m : forall s,
  (String.length (String.substring 0 m s) <= m)%nat.
Proof.
  induction m as [|m IH]; intros [|c s]; simpl; try lia.
  specialize (IH s). lia.
Qed.

Lemma prefix_inv a : forall b,
  String.prefix a b = true -> exists c, b = String.append a c.
Proof.
  induction a as [|x a IH]; intros b H; [now exists b|].
  destruct b as [|y b]; [discriminate H|]. simpl in H.
  destruct (Ascii.ascii_dec x y) as [->|Hne]; [|discriminate H].
  destruct (IH b H) as [c ->]. now exists c.
Qed.

Lemma prefix_app a c : String.prefix a (String.append a c) = true.
Proof.
  induction a as [|x a IH]; [now destruct c|].
  rewrite string_app_cons. simpl.
  destruct (Ascii.ascii_dec x x) as [_|Hne]; [exact IH|contradiction].
Qed.

Lemma includes_nil needle :
  includes needle EmptyString = String.prefix needle EmptyString || false.
Proof. reflexivity. Qed.

Lemma includes_cons needle y hay :
  includes needle (String y hay)
  = String.prefix needle (String y hay) || includes needle hay.
Proof. reflexivity. Qed.

Lemma includes_inv needle : forall hay,
  includes needle hay = true ->
  exists a c, hay = String.append a (String.append needle c).
Proof.
  induction hay as [|y hay IH]; intros H.
  - rewrite includes_nil, orb_false_r in H. apply prefix_inv in H as [c Hc].
    now exists EmptyString, c.
  - rewrite includes_cons in H. apply orb_true_iff in H as [H|H].
    + apply prefix_inv in H as [c Hc]. now exists EmptyString, c.
    + destruct (IH H) as (a & c & ->). now exists (String y a), c.
Qed.

Lemma includes_app needle a c :
  includes needle (String.append a (String.append needle c)) = true.
Proof.
  induction a as [|x a IH].
  - rewrite string_app_nil.
    destruct (String.append needle c) eqn:E;
      rewrite ?includes_nil, ?includes_cons, <- E, prefix_app; reflexivity.
  - rewrite string_app_cons, includes_cons, IH. apply orb_true_r.
Qed.

(** A text that contains [a ++ b] contains [b]. *)
Lemma includes_right a b hay :
  includes (String.append a b) hay = true -> includes b hay = true.
Proof.
  intros H. apply includes_inv in H as (p & q & ->).
  rewrite (string_app_assoc a b q), <- (string_app_assoc p a).
  apply includes_app.
Qed.

(** X8: getErrorMessage never answers 'You declined the transaction.
    Please try again.': a message that contains 'user rejected' contains
    'rejected', and that test comes first. *)
Theorem X8_declined_text_is_dead (error : option JsError) :
  TransactionUtility.getErrorMessage error
  <> "You declined the transaction. Please try again.".
Proof.
  destruct error as [e|]; simpl; [|discriminate].
  destruct (includes "rejected" (message_or_toString e)) eqn:Hr.
  - repeat match goal with
           | |- context [if ?c then _ else _] => destruct c
           end; discriminate.
  - destruct (includes "user rejected" (message_or_toString e)) eqn:Hu.
    + apply (includes_right "user " "rejected") in Hu. congruence.
    + repeat match goal with
             | |- context [if ?c then _ else _] => destruct c
             end; discriminate.
Qed.

Lemma generic_message_length m :
  (String.length (generic_message m) <= 122)%nat.
Proof.
  unfold generic_message. rewrite !string_length_app.
  pose proof (substring_length_le 100 m).
  destruct (100 <? String.length m)%nat; simpl; lia.
Qed.

(** X9: the text getSolanaErrorMessage and getErrorMessage hand to the
    toast is never longer than 122 characters, however long the message of
    the error is. *)
Theorem X9_error_text_is_short (error : option JsError) :
  (String.length (TransactionHelper.getSolanaErrorMessage error) <= 122)%nat /\
  (String.length (TransactionUtility.getErrorMessage error) <= 122)%nat.
Proof.
  pose proof generic_message_length as Hg.
  destruct error as [e|]; simpl; [|lia].
  split;
    repeat match goal with
           | |- context [if ?c then _ else _] => destruct c
           end; simpl; try lia; apply Hg.
Qed.

(** ** Token accounts *)

(** X10: getOrCreateAssociatedTokenAccount always settles; a value it
    returns is the associated token address derived from mint and owner,
    never anything else; and it invokes the send operation at most three
    times. *)
Theorem X10_created_account_is_the_derived_one
    (getAssociatedTokenAddress :
       TokenHelper.PublicKey -> TokenHelper.PublicKey -> Outcome TokenHelper.PublicKey)
    (info : TokenHelper.AccountInfo) (env : Z -> AttemptEnv)
    (mint owner : TokenHelper.PublicKey) :
  exists r,
    TokenHelper.getOrCreateAssociatedTokenAccount
      getAssociatedTokenAddress info env mint owner = Some r /\
    (forall address, result r = Return address ->
       getAssociatedTokenAddress mint owner = Return address) /\
    (sends (trace r) <= 3)%nat.
Proof.
  unfold TokenHelper.getOrCreateAssociatedTokenAccount.
  destruct (getAssociatedTokenAddress mint owner) as [address|error] eqn:Hd.
  - assert (Hcreate : exists r,
      TokenHelper.create_account getAssociatedTokenAddress env mint owner address
        = Some r /\
      (forall x, result r = Return x -> Return address = Return x) /\
      (sends (trace r) <= 3)%nat).
    { unfold TokenHelper.create_account.
      destruct (sendAndConfirmTransaction_total env 3) as [sent Hs].
      rewrite Hs.
      pose proof (steps_sends _ _ _ _ _ (sendAndConfirmTransaction_steps _ _ _ Hs))
        as Hn. simpl in Hn.
      destruct (result sent) as [sig|e] eqn:Hres.
      - eexists. split; [reflexivity|]. simpl. split.
        + intros x [= <-]. reflexivity.
        + rewrite sends_app. simpl. lia.
      - eexists. split; [reflexivity|].
        unfold TokenHelper.catch_block.
        destruct (message e) as [m|]; simpl.
        + destruct (includes "already in use" m); simpl.
          * rewrite Hd. simpl. split; [intros x [= <-]; reflexivity|lia].
          * split; [discriminate|]. rewrite sends_app. simpl. lia.
        + split; [discriminate|lia]. }
    destruct info; [|exact Hcreate|exact Hcreate].
    eexists. split; [reflexivity|]. simpl.
    split; [intros x [= <-]; reflexivity|lia].
  - eexists. split; [reflexivity|].
    unfold TokenHelper.catch_block.
    destruct (message error) as [m|]; simpl.
    + destruct (includes "already in use" m); simpl.
      * rewrite Hd. simpl. split; [discriminate|lia].
      * split; [discriminate|lia].
    + split; [discriminate|lia].
Qed.

(** X11: when doesTokenAccountExist answers true, a call of
    getOrCreateAssociatedTokenAccount for the same mint and owner on the
    same ledger returns the address at once: no blockhash is requested,
    nothing is sent and no toast is shown. *)
Theorem X11_existing_account_is_not_recreated
    (getAssociatedTokenAddress :
       TokenHelper.PublicKey -> TokenHelper.PublicKey -> Outcome TokenHelper.PublicKey)
    (info : TokenHelper.AccountInfo) (env : Z -> AttemptEnv)
    (mint owner : TokenHelper.PublicKey) :
  TokenAccounts.doesTokenAccountExist getAssociatedTokenAddress info mint owner
    = true ->
  exists address,
    getAssociatedTokenAddress mint owner = Return address /\
    TokenHelper.getOrCreateAssociatedTokenAccount
      getAssociatedTokenAddress info env mint owner
    = Some {| trace := []; result := Return address |}.
Proof.
  unfold TokenAccounts.doesTokenAccountExist,
    TokenHelper.getOrCreateAssociatedTokenAccount.
  destruct (getAssociatedTokenAddress mint owner) as [address|error];
    [|discriminate].
  destruct info; try discriminate. intros _. now exists address.
Qed.

Lemma X11_existing_account_is_not_recreated_witness :
  TokenAccounts.doesTokenAccountExist derive_ata TokenHelper.AccountFound
    "mint" "owner" = true /\
  exists address,
    derive_ata "mint" "owner" = Return address /\
    TokenHelper.getOrCreateAssociatedTokenAccount
      derive_ata TokenHelper.AccountFound env_in_use "mint" "owner"
    = Some {| trace := []; result := Return address |}.
Proof.
  assert (H : TokenAccounts.doesTokenAccountExist derive_ata
                TokenHelper.AccountFound "mint" "owner" = true) by reflexivity.
  exact (conj H (X11_existing_account_is_not_recreated derive_ata
                   TokenHelper.AccountFound env_in_use "mint" "owner" H)).
Defined.

(** X12: when the address derivation itself throws an error (one with a
    message), getOrCreateAssociatedTokenAccount rejects with that error
    without contacting the ledger, also when the message contains
    'already in use': the catch block derives the address again and the
    derivation throws again. *)
Theorem X12_derivation_failure_is_propagated
    (getAssociatedTokenAddress :
       TokenHelper.PublicKey -> TokenHelper.PublicKey -> Outcome TokenHelper.PublicKey)
    (info : TokenHelper.AccountInfo) (env : Z -> AttemptEnv)
    (mint owner : TokenHelper.PublicKey) (error : JsError) (m : string) :
  getAssociatedTokenAddress mint owner = Throw error ->
  message error = Some m ->
  exists r,
    TokenHelper.getOrCreateAssociatedTokenAccount
      getAssociatedTokenAddress info env mint owner = Some r /\
    result r = Throw error /\
    blockhashes (trace r) = 0%nat /\ sends (trace r) = 0%nat.
Proof.
  intros Hd Hm. unfold TokenHelper.getOrCreateAssociatedTokenAccount.
  rewrite Hd. eexists. split; [reflexivity|].
  unfold TokenHelper.catch_block. rewrite Hm.
  destruct (includes "already in use" m); simpl.
  - rewrite Hd. simpl. auto.
  - auto.
Qed.

Lemma X12_derivation_failure_is_propagated_witness :
  derive_refused "mint" "owner"
    = Throw (new_Error "owner already in use as a program address") /\
  message (new_Error "owner already in use as a program address")
    = Some "owner already in use as a program address" /\
  exists r,
    TokenHelper.getOrCreateAssociatedTokenAccount
      derive_refused TokenHelper.AccountMissing env_confirmed "mint" "owner"
      = Some r /\
    result r = Throw (new_Error "owner already in use as a program address") /\
    blockhashes (trace r) = 0%nat /\ sends (trace r) = 0%nat.
Proof.
  assert (H1 : derive_refused "mint" "owner"
               = Throw (new_Error "owner already in use as a program address"))
    by reflexivity.
  assert (H2 : message (new_Error "owner already in use as a program address")
               = Some "owner already in use as a program address")
    by reflexivity.
  exact (conj H1 (conj H2
           (X12_derivation_failure_is_propagated derive_refused
              TokenHelper.AccountMissing env_confirmed "mint" "owner" _ _ H1 H2))).
Defined.

(** X13: getTokenBalance throws only what parsing the mint address or
    deriving the token address throws; once both succeed it always
    returns, answering 0 for a missing account and for every failure of
    the two ledger queries; a balance other than 0 is always the uiAmount
    of a successful balance query on an existing account. *)
Theorem X13_balance_is_zero_or_backed (parsed : Outcome TokenHelper.PublicKey)
    (derived : TokenHelper.PublicKey -> Outcome TokenHelper.PublicKey)
    (info : TokenHelper.AccountInfo) (balance : Outcome (option Q)) :
  (forall e, TokenUtility.getTokenBalance parsed derived info balance = Throw e <->
     parsed = Throw e \/
     exists mintPublicKey, parsed = Return mintPublicKey /\
                           derived mintPublicKey = Throw e) /\
  (forall mintPublicKey tokenAccount,
     parsed = Return mintPublicKey ->
     derived mintPublicKey = Return tokenAccount ->
     exists q, TokenUtility.getTokenBalance parsed derived info balance = Return q) /\
  (forall q, TokenUtility.getTokenBalance parsed derived info balance = Return q ->
     ~ (q == 0)%Q ->
     info = TokenHelper.AccountFound /\ balance = Return (Some q)).
Proof.
  unfold TokenUtility.getTokenBalance.
  destruct parsed as [pk|e0].
  - destruct (derived pk) as [acct|e1] eqn:Hd.
    + split; [|split].
      * intros e. split.
        -- destruct info; [destruct balance as [[q|]|]| |]; discriminate.
        -- intros [H|(pk' & [= <-] & H)]; [discriminate H|congruence].
      * intros pk' acct' _ _.
        destruct info; [destruct balance as [[q|]|]| |]; eauto.
      * intros q Hq Hnz.
        destruct info; [destruct balance as [[q'|]|]| |];
          injection Hq as <-; try (exfalso; apply Hnz; reflexivity).
        split; reflexivity.
    + split; [|split].
      * intros e. split.
        -- intros [= <-]. right. eauto.
        -- intros [H|(pk' & [= <-] & H)]; [discriminate H|congruence].
      * intros pk' acct' [= <-] H. congruence.
      * discriminate.
  - split; [|split].
    + intros e. split.
      * intros [= <-]. now left.
      * intros [[= <-]|(pk' & H & _)]; [reflexivity|discriminate H].
    + discriminate.
    + discriminate.
Qed.


(** ** The connection pool and cache *)

Section PoolMoreFacts.

Import ConnectionHelper.

Variable constructible : string -> string -> bool.

Lemma push_connections_content n endpoint : forall st,
  connectionPool (push_connections n endpoint st)
    = connectionPool st ++ pooled (constructed st) n endpoint /\
  constructed (push_connections n endpoint st) = (constructed st + n)%nat.
Proof.
  unfold pooled.
  induction n as [|n IH]; intros st; simpl.
  - rewrite app_nil_r. auto.
  - destruct (IH (push_connection endpoint st)) as [Hp Hc].
    rewrite Hp, Hc. simpl. split; [|lia].
    rewrite <- app_assoc. simpl. rewrite Nat.add_0_r.
    do 2 f_equal. rewrite <- seq_shift, map_map.
    apply map_ext. intros i. f_equal. lia.
Qed.

Lemma run_preserves (has_window : bool) (I : State -> Prop) :
  (forall op st, I st -> I (snd (step has_window constructible op st))) ->
  forall ops st, I st -> I (snd (run has_window constructible ops st)).
Proof.
  intros Hstep. induction ops as [|op rest IH]; intros st Hst; [exact Hst|].
  rewrite run_cons. simpl. apply IH, Hstep, Hst.
Qed.

Lemma step_all_kept has_window op st :
  all_kept st -> all_kept (snd (step has_window constructible op st)).
Proof.
  unfold all_kept. intros Hk.
  assert (Hinit : forall e n,
    constructed (initConnectionPool has_window constructible e n st)
    = (size (connectionCache (initConnectionPool has_window constructible e n st))
       + length (connectionPool
                   (initConnectionPool has_window constructible e n st)))%nat).
  { intros e n. unfold initConnectionPool.
    destruct has_window; simpl; [|exact Hk].
    destruct (connectionInitialized st); [exact Hk|].
    destruct (constructible e "confirmed"); [|exact Hk].
    destruct (push_connections_content (Z.to_nat n) e
      {| connectionCache := connectionCache st;
         connectionPool := connectionPool st;
         connectionInitialized := true;
         constructed := constructed st |}) as [Hp Hc].
    destruct (push_connections_fields (Z.to_nat n) e
      {| connectionCache := connectionCache st;
         connectionPool := connectionPool st;
         connectionInitialized := true;
         constructed := constructed st |}) as (_ & Hcache & Hlen).
    rewrite Hc, Hcache, Hlen. simpl. lia. }
  destruct op as [e n|e|e c]; simpl.
  - apply Hinit.
  - apply (Hinit e 2%Z).
  - unfold getCachedConnection.
    destruct (connectionPool st) as [|first rest] eqn:Hp; simpl.
    + destruct (connectionCache st !! cache_key e c) eqn:Hk'; simpl.
      * now rewrite Hp.
      * destruct (constructible e c); simpl; [|now rewrite Hp].
        rewrite map_size_insert_None by exact Hk'.
        try rewrite Hp in Hk. simpl in *. lia.
    + now rewrite Hp.
Qed.

(** X15: in every state reached from the initial one, in a browser or
    not, each Connection object constructed so far is held by the cache or
    by the pool: their sizes add up to the number of constructions, so no
    connection is built and dropped, and none is built twice for a key
    that is cached. *)
Theorem X15_no_connection_is_dropped (has_window : bool) (ops : list Op) :
  let st := snd (run has_window constructible ops empty_state) in
  constructed st = (size (connectionCache st) + length (connectionPool st))%nat.
Proof.
  apply (run_preserves has_window all_kept).
  - intros op st. apply step_all_kept.
  - reflexivity.
Qed.

Lemma server_step_other op st :
  is_get op = false -> step false constructible op st = (None, st).
Proof. destruct op; simpl; [reflexivity|reflexivity|discriminate]. Qed.

Lemma server_pool_empty ops : forall st,
  connectionPool st = [] ->
  connectionPool (snd (run false constructible ops st)) = [].
Proof.
  apply (run_preserves false (fun st => connectionPool st = [])).
  intros [e n|e|e c] st Hp; simpl; try exact Hp.
  exact (proj1 (get_empty_pool constructible e c st Hp)).
Qed.

Lemma server_keep ops : forall st e c x y j,
  connectionPool st = [] ->
  connectionCache st !! cache_key e c = Some x ->
  ops !! j = Some (Get e c) ->
  fst (run false constructible ops st) !! j = Some (Some y) ->
  y = x.
Proof.
  induction ops as [|op rest IH]; intros st e c x y j Hp Hk Hop Hres;
    [destruct j; discriminate Hop|].
  rewrite run_cons in Hres. simpl in Hres.
  destruct (is_get op) eqn:Hg.
  - destruct op as [e' n'|e'|e' c']; try discriminate Hg. simpl in Hres.
    destruct j as [|j]; simpl in Hop, Hres.
    + injection Hop as -> ->.
      rewrite (get_cached constructible e c st x Hp Hk) in Hres. congruence.
    + destruct (get_empty_pool constructible e' c' st Hp) as (Hp' & _ & Hkeep).
      exact (IH _ e c x y j Hp' (Hkeep _ _ Hk) Hop Hres).
  - rewrite (server_step_other op st Hg) in Hres. simpl in Hres.
    destruct j as [|j]; simpl in Hop, Hres.
    + injection Hop as ->. discriminate Hg.
    + exact (IH st e c x y j Hp Hk Hop Hres).
Qed.

Lemma server_agree ops : forall st e c x y i j,
  connectionPool st = [] ->
  ops !! i = Some (Get e c) -> ops !! j = Some (Get e c) ->
  fst (run false constructible ops st) !! i = Some (Some x) ->
  fst (run false constructible ops st) !! j = Some (Some y) ->
  x = y.
Proof.
  induction ops as [|op rest IH]; intros st e c x y i j Hp Hi Hj Hx Hy;
    [destruct i; discriminate Hi|].
  rewrite run_cons in Hx, Hy. simpl in Hx, Hy.
  destruct (is_get op) eqn:Hg.
  - destruct op as [e' n'|e'|e' c']; try discriminate Hg. simpl in Hx, Hy.
    destruct (get_empty_pool constructible e' c' st Hp) as (Hp' & Hnew & Hkeep).
    destruct i as [|i], j as [|j]; simpl in Hi, Hj, Hx, Hy.
    + congruence.
    + injection Hi as -> ->. injection Hx as Hx.
      exact (eq_sym (server_keep rest _ e c x y j Hp' (Hnew _ Hx) Hj Hy)).
    + injection Hj as -> ->. injection Hy as Hy.
      exact (server_keep rest _ e c y x i Hp' (Hnew _ Hy) Hi Hx).
    + exact (IH _ e c x y i j Hp' Hi Hj Hx Hy).
  - rewrite (server_step_other op st Hg) in Hx, Hy. simpl in Hx, Hy.
    destruct i as [|i]; simpl in Hi, Hx;
      [injection Hi as ->; discriminate Hg|].
    destruct j as [|j]; simpl in Hj, Hy;
      [injection Hj as ->; discriminate Hg|].
    exact (IH st e c x y i j Hp Hi Hj Hx Hy).
Qed.

(** X16: where there is no window (on the server) the pool is never
    filled, whatever is called, and getCachedConnection then returns the
    same connection object for the same endpoint and commitment every
    time, also across calls of initConnectionPool and preWarmConnection. *)
Theorem X16_server_side_cache_is_stable (ops : list Op) :
  connectionPool (snd (run false constructible ops empty_state)) = [] /\
  forall i j e c x y,
    ops !! i = Some (Get e c) -> ops !! j = Some (Get e c) ->
    fst (run false constructible ops empty_state) !! i = Some (Some x) ->
    fst (run false constructible ops empty_state) !! j = Some (Some y) ->
    x = y.
Proof.
  split.
  - now apply server_pool_empty.
  - intros i j e c x y. now apply server_agree.
Qed.

(** X17: in a browser, a first call initConnectionPool(endpoint, size)
    with size at least 1, for an endpoint the Connection constructor
    accepts, fills the pool with exactly size connections to that endpoint
    at commitment 'confirmed', and from then on no call changes the pool
    and every getCachedConnection returns its first connection, whatever
    endpoint and commitment it is asked for. *)
Theorem X17_filled_pool_serves_its_first_connection (endpoint : string)
    (size : Z) (ops : list Op) :
  (1 <= size)%Z ->
  constructible endpoint "confirmed" = true ->
  initConnectionPool_throws true constructible endpoint size empty_state
    = false /\
  connectionPool
    (snd (run true constructible (Init endpoint size :: ops) empty_state))
    = pooled 0 (Z.to_nat size) endpoint /\
  forall i e c x,
    ops !! i = Some (Get e c) ->
    fst (run true constructible (Init endpoint size :: ops) empty_state) !! S i
      = Some (Some x) ->
    x = {| conn_id := 0; conn_endpoint := endpoint;
           conn_commitment := "confirmed" |}.
Proof.
  intros Hsize Hok.
  split; [unfold initConnectionPool_throws; rewrite Hok; simpl;
          apply andb_false_r|].
  rewrite run_cons. simpl.
  set (st := initConnectionPool true constructible endpoint size empty_state).
  assert (Hpool : connectionPool st = pooled 0 (Z.to_nat size) endpoint).
  { unfold st, initConnectionPool. simpl. rewrite Hok.
    now rewrite (proj1 (push_connections_content _ _ _)). }
  assert (Hc : consistent st).
  { unfold st, initConnectionPool, consistent. simpl. rewrite Hok.
    rewrite (proj1 (push_connections_fields _ _ _)). discriminate. }
  destruct (Z.to_nat size) as [|n] eqn:Hn; [lia|].
  unfold pooled in Hpool. simpl in Hpool.
  rewrite (run_filled true constructible _ _ ops st Hc Hpool). simpl.
  split; [exact Hpool|].
  intros i e c x Hop Hres.
  rewrite list_lookup_fmap, Hop in Hres. simpl in Hres. congruence.
Qed.

(** A pool that a refused initialisation left empty stays empty: the flag
    is set, so no later call pushes anything. *)
Lemma refused_pool_stays_empty ops : forall st,
  connectionInitialized st = true -> connectionPool st = [] ->
  connectionInitialized (snd (run true constructible ops st)) = true /\
  connectionPool (snd (run true constructible ops st)) = [].
Proof.
  intros st Hi Hp.
  apply (run_preserves true
           (fun st => connectionInitialized st = true /\ connectionPool st = []));
    [|auto].
  clear st Hi Hp.
  intros [e n|e|e c] st [Hi Hp]; simpl;
    unfold preWarmConnection, initConnectionPool; simpl; rewrite ?Hi; auto.
  split.
  - unfold getCachedConnection. rewrite Hp.
    destruct (connectionCache st !! cache_key e c); [exact Hi|].
    destruct (constructible e c); exact Hi.
  - exact (proj1 (get_empty_pool constructible e c st Hp)).
Qed.

(** X25: in a browser, when the Connection constructor refuses the
    endpoint of a first initConnectionPool(endpoint, size) with size at
    least 1, the call throws with the initialised flag already set and
    nothing pushed, and the pool then stays empty for good: no later
    initConnectionPool or preWarmConnection, whatever its endpoint, fills
    it or throws. *)
Theorem X25_refused_initialisation_is_never_retried (endpoint : string)
    (size : Z) (ops : list Op) :
  (1 <= size)%Z ->
  constructible endpoint "confirmed" = false ->
  let st :=
    snd (run true constructible (Init endpoint size :: ops) empty_state) in
  initConnectionPool_throws true constructible endpoint size empty_state
    = true /\
  connectionInitialized st = true /\
  connectionPool st = [] /\
  forall e n,
    initConnectionPool true constructible e n st = st /\
    initConnectionPool_throws true constructible e n st = false.
Proof.
  intros Hsize Hno st.
  assert (Hst : connectionInitialized st = true /\ connectionPool st = []).
  { unfold st. rewrite run_cons. simpl.
    apply refused_pool_stays_empty;
      unfold initConnectionPool; simpl; rewrite Hno; reflexivity. }
  destruct Hst as [Hi Hp].
  split.
  - unfold initConnectionPool_throws. rewrite Hno. simpl.
    apply andb_true_iff. split; [|reflexivity]. apply Z.ltb_lt. lia.
  - split; [exact Hi|]. split; [exact Hp|].
    intros e n. unfold initConnectionPool, initConnectionPool_throws.
    rewrite Hi. auto.
Qed.

End PoolMoreFacts.

Lemma X17_filled_pool_serves_its_first_connection_witness :
  (1 <= 2)%Z /\
  accepts_http devnet "confirmed" = true /\
  ConnectionHelper.connectionPool
    (snd (ConnectionHelper.run true accepts_http
            (ConnectionHelper.Init devnet 2 :: calls_after_init)
            ConnectionHelper.empty_state))
    = pooled 0 (Z.to_nat 2) devnet.
Proof.
  assert (H : (1 <= 2)%Z) by lia.
  assert (Hok : accepts_http devnet "confirmed" = true) by reflexivity.
  exact (conj H (conj Hok
           (proj1 (proj2 (X17_filled_pool_serves_its_first_connection
                            accepts_http devnet 2 calls_after_init H Hok))))).
Defined.

Lemma X25_refused_initialisation_is_never_retried_witness :
  (1 <= 2)%Z /\
  accepts_http bare_host "confirmed" = false /\
  ConnectionHelper.initConnectionPool_throws true accepts_http bare_host 2
    ConnectionHelper.empty_state = true /\
  ConnectionHelper.connectionPool
    (snd (ConnectionHelper.run true accepts_http
            (ConnectionHelper.Init bare_host 2 :: calls_after_refusal)
            ConnectionHelper.empty_state)) = [].
Proof.
  assert (H : (1 <= 2)%Z) by lia.
  assert (Hno : accepts_http bare_host "confirmed" = false) by reflexivity.
  destruct (X25_refused_initialisation_is_never_retried accepts_http
              bare_host 2 calls_after_refusal H Hno)
    as (Hthrows & _ & Hpool & _).
  exact (conj H (conj Hno (conj Hthrows Hpool))).
Defined.

Section CacheKeys.

Import ConnectionHelper.

Variable constructible : string -> string -> bool.

Lemma hyphen_free_cons x s :
  hyphen_free (String x s) = negb (Ascii.eqb x "-"%char) && hyphen_free s.
Proof. reflexivity. Qed.

Lemma hyphen_app c : String.append "-" c = String "-"%char c.
Proof. reflexivity. Qed.

Lemma hyphen_free_app a b :
  hyphen_free (String.append a (String "-"%char b)) = false.
Proof.
  induction a as [|x a IH].
  - reflexivity.
  - rewrite string_app_cons, hyphen_free_cons, IH. apply andb_false_r.
Qed.

(** For commitments without a hyphen the cache key determines the
    endpoint and the commitment. *)
Lemma cache_key_inj e1 : forall e2 c1 c2,
  hyphen_free c1 = true -> hyphen_free c2 = true ->
  cache_key e1 c1 = cache_key e2 c2 -> e1 = e2 /\ c1 = c2.
Proof.
  unfold cache_key.
  induction e1 as [|x e1 IH]; intros [|y e2] c1 c2 H1 H2 Heq;
    rewrite !hyphen_app in Heq;
    rewrite ?string_app_nil, ?string_app_cons in Heq.
  - injection Heq as ->. auto.
  - injection Heq as <- ->. now rewrite hyphen_free_app in H1.
  - injection Heq as -> <-. now rewrite hyphen_free_app in H2.
  - injection Heq as -> Heq.
    destruct (IH e2 c1 c2 H1 H2 Heq) as [-> ->]. auto.
Qed.

Lemma get_well_keyed e c st :
  connectionPool st = [] -> hyphen_free c = true -> well_keyed st ->
  well_keyed (snd (getCachedConnection constructible e c st)) /\
  forall x, fst (getCachedConnection constructible e c st) = Some x ->
    conn_endpoint x = e /\ conn_commitment x = c.
Proof.
  intros Hp Hc Hw. unfold getCachedConnection. rewrite Hp.
  destruct (connectionCache st !! cache_key e c) as [conn|] eqn:Hk; simpl.
  - split; [exact Hw|]. intros x [= <-].
    destruct (Hw _ _ Hk) as [Hkey Hfree].
    destruct (cache_key_inj _ _ _ _ Hc Hfree Hkey) as [-> ->]. auto.
  - destruct (constructible e c); simpl.
    + split; [|intros x [= <-]; auto].
      intros k conn. simpl. rewrite lookup_insert.
      destruct (decide (cache_key e c = k)) as [<-|Hne].
      * intros [= <-]. simpl. auto.
      * apply Hw.
    + split; [exact Hw|discriminate].
Qed.

Lemma server_matches ops : forall st i e c x,
  plain_commitments ops ->
  connectionPool st = [] -> well_keyed st ->
  ops !! i = Some (Get e c) ->
  fst (run false constructible ops st) !! i = Some (Some x) ->
  conn_endpoint x = e /\ conn_commitment x = c.
Proof.
  induction ops as [|op rest IH]; intros st i e c x Hplain Hp Hw Hop Hres;
    [destruct i; discriminate Hop|].
  assert (Hrest : plain_commitments rest)
    by (intros e' c' Hin; apply (Hplain e' c'); now right).
  rewrite run_cons in Hres. simpl in Hres.
  destruct (is_get op) eqn:Hg.
  - destruct op as [e' n'|e'|e' c']; try discriminate Hg. simpl in Hres.
    assert (Hc' : hyphen_free c' = true) by (apply (Hplain e' c'); now left).
    destruct (get_well_keyed e' c' st Hp Hc' Hw) as (Hw' & Hec).
    destruct (get_empty_pool constructible e' c' st Hp) as (Hp' & _).
    destruct i as [|i]; simpl in Hop, Hres.
    + injection Hop as <- <-. injection Hres as Hres. exact (Hec _ Hres).
    + exact (IH _ i e c x Hrest Hp' Hw' Hop Hres).
  - rewrite (server_step_other constructible op st Hg) in Hres. simpl in Hres.
    destruct i as [|i]; simpl in Hop, Hres.
    + injection Hop as ->. discriminate Hg.
    + exact (IH st i e c x Hrest Hp Hw Hop Hres).
Qed.

(** X18: where there is no window, and as long as the commitments asked
    for contain no hyphen (true of every Commitment value), the connection
    getCachedConnection returns is one constructed for exactly the
    endpoint and the commitment of the call: keys `${endpoint}-${commitment}`
    never make two different requests share a cached connection. *)
Theorem X18_cached_connection_matches_request (ops : list Op) (i : nat)
    (e c : string) (x : Connection) :
  plain_commitments ops ->
  ops !! i = Some (Get e c) ->
  fst (run false constructible ops empty_state) !! i = Some (Some x) ->
  conn_endpoint x = e /\ conn_commitment x = c.
Proof.
  intros Hplain. apply server_matches; [exact Hplain|reflexivity|].
  intros k conn Hk. simpl in Hk. rewrite lookup_empty in Hk. discriminate Hk.
Qed.

End CacheKeys.

Lemma X18_cached_connection_matches_request_witness :
  plain_commitments server_calls /\
  server_calls !! 2%nat = Some (ConnectionHelper.Get mainnet "confirmed") /\
  fst (ConnectionHelper.run false accepts_http server_calls
         ConnectionHelper.empty_state) !! 2%nat
    = Some (Some {| ConnectionHelper.conn_id := 1;
                    ConnectionHelper.conn_endpoint := mainnet;
                    ConnectionHelper.conn_commitment := "confirmed" |}) /\
  ConnectionHelper.conn_endpoint
    {| ConnectionHelper.conn_id := 1;
       ConnectionHelper.conn_endpoint := mainnet;
       ConnectionHelper.conn_commitment := "confirmed" |} = mainnet.
Proof.
  assert (H1 : plain_commitments server_calls).
  { intros e c [H|[H|[H|[]]]]; try discriminate H;
      injection H as <- <-; reflexivity. }
  assert (H2 : server_calls !! 2%nat
               = Some (ConnectionHelper.Get mainnet "confirmed")) by reflexivity.
  assert (H3 : fst (ConnectionHelper.run false accepts_http server_calls
                      ConnectionHelper.empty_state) !! 2%nat
               = Some (Some {| ConnectionHelper.conn_id := 1;
                               ConnectionHelper.conn_endpoint := mainnet;
                               ConnectionHelper.conn_commitment := "confirmed" |}))
    by reflexivity.
  exact (conj H1 (conj H2 (conj H3
           (proj1 (X18_cached_connection_matches_request accepts_http
                     server_calls 2 mainnet "confirmed" _ H1 H2 H3))))).
Defined.

(** ** The confirmation poller and the mint handler *)

Section PollerMore.

Import TokenCreator.

Variable startTime : Z.
Variable now : nat -> Z.
Variable answer : nat -> option SignatureResult.
Variable timeoutMs : Z.

Local Abbreviation waits first n :=
  (flat_map (fun r => [EvPoll r; EvWait r (poll_delay r)]) (seq first n)).

(** How a settled run of the loop came about. *)
Lemma poll_loop_inv fuel : forall first run,
  loop startTime now answer timeoutMs fuel first = Some run ->
  exists n,
    (forall k, (k < n)%nat ->
       (now (first + k)%nat - startTime < timeoutMs)%Z /\
       answer (first + k)%nat = None) /\
    ((exists c,
        (now (first + n)%nat - startTime < timeoutMs)%Z /\
        answer (first + n)%nat = Some c /\
        polls run = waits first n ++ [EvPoll (first + n)] /\
        settled run = Confirmation c) \/
     ((timeoutMs <= now (first + n)%nat - startTime)%Z /\
      polls run = waits first n /\
      settled run = Thrown (timed_out timeoutMs))).
Proof.
  induction fuel as [|fuel IH]; intros first run; simpl; [discriminate|].
  destruct (now first - startTime <? timeoutMs)%Z eqn:Hlt.
  - apply Z.ltb_lt in Hlt.
    destruct (answer first) as [c|] eqn:Hans.
    + intros [= <-]. exists 0%nat. split; [intros k Hk; lia|].
      left. exists c. rewrite Nat.add_0_r. auto.
    + destruct (loop startTime now answer timeoutMs fuel (S first))
        as [r|] eqn:Hr; [|discriminate].
      intros [= <-]. destruct (IH _ _ Hr) as (n & Hfail & Hend).
      exists (S n). split.
      * intros k Hk. destruct k as [|k].
        -- rewrite Nat.add_0_r. auto.
        -- replace (first + S k)%nat with (S first + k)%nat by lia.
           apply Hfail. lia.
      * replace (first + S n)%nat with (S first + n)%nat by lia.
        destruct Hend as [(c & Hl & Ha & Hp & Hs)|(Hd & Hp & Hs)]; simpl.
        -- left. exists c. rewrite Hp. auto.
        -- right. rewrite Hp. auto.
  - apply Z.ltb_ge in Hlt. intros [= <-]. exists 0%nat.
    split; [intros k Hk; lia|]. right. rewrite Nat.add_0_r. auto.
Qed.

(** The polls that can still be made from retry [r] on, when every round
    takes a second or more. *)
Local Abbreviation rounds_left r :=
  (Z.to_nat ((timeoutMs - (now r - startTime) + 999) / 1000)).

Hypothesis clock_advances : forall r, (now r + 1000 <= now (S r))%Z.

Lemma poll_loop_bounded fuel : forall r,
  (rounds_left r < fuel)%nat ->
  exists run,
    loop startTime now answer timeoutMs fuel r = Some run /\
    (count_polls (polls run) <= rounds_left r)%nat.
Proof.
  induction fuel as [|fuel IH]; intros r Hfuel; [lia|]. simpl.
  destruct (now r - startTime <? timeoutMs)%Z eqn:Hlt.
  - apply Z.ltb_lt in Hlt.
    assert (Hstep : (rounds_left (S r) < rounds_left r)%nat).
    { pose proof (clock_advances r).
      assert ((timeoutMs - (now (S r) - startTime) + 999) / 1000
              < (timeoutMs - (now r - startTime) + 999) / 1000)%Z.
      { apply Z.lt_le_trans
          with ((timeoutMs - (now r - startTime) + 999 - 1000) / 1000 + 1)%Z.
        - assert ((timeoutMs - (now (S r) - startTime) + 999) / 1000
                  <= (timeoutMs - (now r - startTime) + 999 - 1000) / 1000)%Z
            by (apply Z.div_le_mono; lia).
          lia.
        - replace (timeoutMs - (now r - startTime) + 999 - 1000)%Z
            with (timeoutMs - (now r - startTime) + 999 + (-1) * 1000)%Z by lia.
          rewrite Z.div_add by lia. lia. }
      assert (0 < (timeoutMs - (now r - startTime) + 999) / 1000)%Z
        by (apply Z.div_str_pos; lia).
      lia. }
    destruct (answer r) as [c|].
    + eexists. split; [reflexivity|]. simpl. lia.
    + destruct (IH (S r)) as (run & Hrun & Hcount); [lia|].
      rewrite Hrun. eexists. split; [reflexivity|]. simpl. lia.
  - eexists. split; [reflexivity|]. simpl. lia.
Qed.

End PollerMore.

(** X19: whenever confirmTransactionWithExponentialBackoff settles, it
    either returns the answer of the first poll that did not fail, every
    poll before it having failed before the deadline, or throws the
    'timed out' error after polls that all failed; it returns nothing else
    and throws nothing else. *)
Theorem X19_poller_settles_in_two_ways (startTime : Z) (now : nat -> Z)
    (answer : nat -> option TokenCreator.SignatureResult) (timeoutMs : Z)
    (fuel : nat) (run : TokenCreator.PollRun) :
  TokenCreator.confirmTransactionWithExponentialBackoff
    startTime now answer timeoutMs fuel = Some run ->
  exists n,
    (forall k, (k < n)%nat ->
       (now k - startTime < timeoutMs)%Z /\ answer k = None) /\
    ((exists c,
        (now n - startTime < timeoutMs)%Z /\ answer n = Some c /\
        TokenCreator.polls run = failed_polls n ++ [TokenCreator.EvPoll n] /\
        TokenCreator.settled run = TokenCreator.Confirmation c) \/
     ((timeoutMs <= now n - startTime)%Z /\
      TokenCreator.polls run = failed_polls n /\
      TokenCreator.settled run
        = TokenCreator.Thrown (TokenCreator.timed_out timeoutMs))).
Proof.
  intros Hrun.
  exact (poll_loop_inv startTime now answer timeoutMs fuel 0%nat run Hrun).
Qed.

Lemma X19_poller_settles_in_two_ways_witness :
  TokenCreator.confirmTransactionWithExponentialBackoff
    1700000000000 slow_clock third_answer 90000 5
  = Some {| TokenCreator.polls := failed_polls 2 ++ [TokenCreator.EvPoll 2];
            TokenCreator.settled :=
              TokenCreator.Confirmation
                {| TokenCreator.slot := 1234; TokenCreator.err := None |} |} /\
  exists n,
    (forall k, (k < n)%nat ->
       (slow_clock k - 1700000000000 < 90000)%Z /\ third_answer k = None) /\
    ((exists c,
        (slow_clock n - 1700000000000 < 90000)%Z /\ third_answer n = Some c /\
        failed_polls 2 ++ [TokenCreator.EvPoll 2]
          = failed_polls n ++ [TokenCreator.EvPoll n] /\
        TokenCreator.Confirmation
          {| TokenCreator.slot := 1234; TokenCreator.err := None |}
          = TokenCreator.Confirmation c) \/
     ((90000 <= slow_clock n - 1700000000000)%Z /\
      failed_polls 2 ++ [TokenCreator.EvPoll 2] = failed_polls n /\
      TokenCreator.Confirmation
        {| TokenCreator.slot := 1234; TokenCreator.err := None |}
        = TokenCreator.Thrown (TokenCreator.timed_out 90000))).
Proof.
  assert (H : TokenCreator.confirmTransactionWithExponentialBackoff
                1700000000000 slow_clock third_answer 90000 5
              = Some {| TokenCreator.polls :=
                          failed_polls 2 ++ [TokenCreator.EvPoll 2];
                        TokenCreator.settled :=
                          TokenCreator.Confirmation
                            {| TokenCreator.slot := 1234;
                               TokenCreator.err := None |} |})
    by reflexivity.
  exact (conj H (X19_poller_settles_in_two_ways 1700000000000 slow_clock
                   third_answer 90000 5 _ H)).
Defined.

(** X20: if the clock has not gone back since the start and every failed
    poll with the wait after it takes at least a second (each wait lasts
    1000 milliseconds or more), confirmTransactionWithExponentialBackoff
    settles after at most ceil(timeoutMs / 1000) polls. *)
Theorem X20_polls_are_bounded_by_the_timeout (startTime : Z) (now : nat -> Z)
    (answer : nat -> option TokenCreator.SignatureResult) (timeoutMs : Z)
    (fuel : nat) :
  (startTime <= now 0%nat)%Z ->
  (forall r, (now r + 1000 <= now (S r))%Z) ->
  (Z.to_nat ((timeoutMs + 999) / 1000) < fuel)%nat ->
  exists run,
    TokenCreator.confirmTransactionWithExponentialBackoff
      startTime now answer timeoutMs fuel = Some run /\
    (count_polls (TokenCreator.polls run)
     <= Z.to_nat ((timeoutMs + 999) / 1000))%nat.
Proof.
  intros Hstart Hclock Hfuel.
  assert (Hle : ((timeoutMs - (now 0%nat - startTime) + 999) / 1000
                 <= (timeoutMs + 999) / 1000)%Z)
    by (apply Z.div_le_mono; lia).
  destruct (poll_loop_bounded startTime now answer timeoutMs Hclock fuel 0%nat)
    as (run & Hrun & Hcount); [lia|].
  exists run. split; [exact Hrun|]. lia.
Qed.

Lemma X20_polls_are_bounded_by_the_timeout_witness :
  (1700000000000 <= silent_clock 0)%Z /\
  (forall r, (silent_clock r + 1000 <= silent_clock (S r))%Z) /\
  (Z.to_nat ((90000 + 999) / 1000) < 91)%nat /\
  exists run,
    TokenCreator.confirmTransactionWithExponentialBackoff
      1700000000000 silent_clock silent_answer 90000 91 = Some run /\
    (count_polls (TokenCreator.polls run)
     <= Z.to_nat ((90000 + 999) / 1000))%nat.
Proof.
  assert (H1 : (1700000000000 <= silent_clock 0)%Z)
    by (unfold silent_clock; lia).
  assert (H2 : forall r, (silent_clock r + 1000 <= silent_clock (S r))%Z)
    by (intros r; unfold silent_clock; lia).
  assert (H3 : (Z.to_nat ((90000 + 999) / 1000) < 91)%nat)
    by (vm_compute; lia).
  exact (conj H1 (conj H2 (conj H3
           (X20_polls_are_bounded_by_the_timeout 1700000000000 silent_clock
              silent_answer 90000 91 H1 H2 H3)))).
Defined.

(** ** The mint handler after the send *)

(** X21: when the poller gives up after its 90 seconds, mintToken does not
    show the 'may have succeeded' notice: the poller's message says
    'timed out', which does not contain 'timeout', so the error goes to the
    outer handler; the signature is not kept, the history is unchanged and
    the toast reads 'Failed to mint tokens: Transaction confirmation timed
    out after 90000ms'. *)
Theorem X21_poller_timeout_is_shown_as_failure (startTime : Z)
    (now : nat -> Z) (answer : nat -> option TokenCreator.SignatureResult)
    (fuel n : nat) (signature mintAddress publicKey : string) (amount : Q)
    (timestamp : Z) (st : TransactionStore.Store) :
  (forall k, (k < n)%nat ->
     (now k - startTime < 90000)%Z /\ answer k = None) ->
  (90000 <= now n - startTime)%Z ->
  (n < fuel)%nat ->
  TokenMinter.mintToken_confirm startTime now answer fuel
    signature mintAddress publicKey amount timestamp st
  = Some {| TokenMinter.txSignature := None;
            TokenMinter.store := st;
            TokenMinter.toast := TokenMinter.ToastError
              "Failed to mint tokens: Transaction confirmation timed out after 90000ms" |}.
Proof.
  intros Hfail Hdead Hfuel. unfold TokenMinter.mintToken_confirm.
  unfold TokenCreator.confirmTransactionWithExponentialBackoff.
  rewrite (poll_loop_timeout startTime now answer 90000 n fuel 0%nat
             Hfail Hdead Hfuel).
  reflexivity.
Qed.

Lemma X21_poller_timeout_is_shown_as_failure_witness :
  (forall k, (k < 3)%nat ->
     (silent_clock k - 1700000000000 < 90000)%Z /\ silent_answer k = None) /\
  (90000 <= silent_clock 3 - 1700000000000)%Z /\
  (3 < 20)%nat /\
  TokenMinter.mintToken_confirm 1700000000000 silent_clock silent_answer 20
    sigA "MintAddr" "Owner" (5 # 2) 1700000090000 TransactionStore.empty_store
  = Some {| TokenMinter.txSignature := None;
            TokenMinter.store := TransactionStore.empty_store;
            TokenMinter.toast := TokenMinter.ToastError
              "Failed to mint tokens: Transaction confirmation timed out after 90000ms" |}.
Proof.
  assert (H1 : forall k, (k < 3)%nat ->
            (silent_clock k - 1700000000000 < 90000)%Z /\
            silent_answer k = None)
    by (intros k Hk; unfold silent_clock, silent_answer; split; [lia|reflexivity]).
  assert (H2 : (90000 <= silent_clock 3 - 1700000000000)%Z)
    by (unfold silent_clock; lia).
  assert (H3 : (3 < 20)%nat) by lia.
  exact (conj H1 (conj H2 (conj H3
           (X21_poller_timeout_is_shown_as_failure 1700000000000 silent_clock
              silent_answer 20 3 sigA "MintAddr" "Owner" (5 # 2)
              1700000090000 TransactionStore.empty_store H1 H2 H3)))).
Defined.

(** X22: if mintToken changes the history after the send, then some poll
    made before the 90 second deadline answered with a confirmation that
    carries no error; the signature is then shown, the success toast is
    raised and the new first entry of the history is the mint with that
    signature and status success.  A failed or unconfirmed mint is never
    recorded. *)
Theorem X22_history_only_after_clean_confirmation (startTime : Z)
    (now : nat -> Z) (answer : nat -> option TokenCreator.SignatureResult)
    (fuel : nat) (signature mintAddress publicKey : string) (amount : Q)
    (timestamp : Z) (st : TransactionStore.Store) (view : TokenMinter.View) :
  TokenMinter.mintToken_confirm startTime now answer fuel
    signature mintAddress publicKey amount timestamp st = Some view ->
  TokenMinter.store view <> st ->
  exists n c,
    (now n - startTime < 90000)%Z /\
    answer n = Some c /\ TokenCreator.err c = None /\
    TokenMinter.txSignature view = Some signature /\
    TokenMinter.toast view
      = TokenMinter.ToastSuccess "Tokens minted successfully!" /\
    exists entry,
      TransactionStore.transactions (TokenMinter.store view)
        = entry :: take 49 (TransactionStore.transactions st) /\
      TransactionStore.id entry = signature /\
      TransactionStore.type entry = TransactionStore.mint /\
      TransactionStore.status entry = TransactionStore.success.
Proof.
  unfold TokenMinter.mintToken_confirm.
  destruct (TokenCreator.confirmTransactionWithExponentialBackoff
              startTime now answer 90000 fuel) as [run|] eqn:Hrun;
    [|discriminate].
  intros [= <-] Hstore.
  destruct (poll_loop_inv startTime now answer 90000 fuel 0%nat run Hrun)
    as (n & _ & [(c & Hlive & Hans & _ & Hset)|(_ & _ & Hset)]);
    rewrite Hset in *; simpl in *.
  - destruct (TokenCreator.err c) as [json|] eqn:Herr.
    + exfalso. apply Hstore. unfold TokenMinter.inner_catch.
      try destruct (message_includes _ _); reflexivity.
    + exists n, c. repeat (split; [assumption || reflexivity|]).
      eexists. split; [reflexivity|]. simpl. auto.
  - exfalso. apply Hstore. reflexivity.
Qed.

Lemma X22_history_only_after_clean_confirmation_witness :
  TokenMinter.mintToken_confirm 1700000000000 slow_clock third_answer 5
    sigA "MintAddr" "Owner" (5 # 2) 1700000040000 TransactionStore.empty_store
    = Some minted_view /\
  TokenMinter.store minted_view <> TransactionStore.empty_store /\
  exists n c,
    (slow_clock n - 1700000000000 < 90000)%Z /\
    third_answer n = Some c /\ TokenCreator.err c = None /\
    TokenMinter.txSignature minted_view = Some sigA /\
    TokenMinter.toast minted_view
      = TokenMinter.ToastSuccess "Tokens minted successfully!" /\
    exists entry,
      TransactionStore.transactions (TokenMinter.store minted_view)
        = entry :: take 49 (TransactionStore.transactions
                              TransactionStore.empty_store) /\
      TransactionStore.id entry = sigA /\
      TransactionStore.type entry = TransactionStore.mint /\
      TransactionStore.status entry = TransactionStore.success.
Proof.
  assert (H1 : TokenMinter.mintToken_confirm 1700000000000 slow_clock
                 third_answer 5 sigA "MintAddr" "Owner" (5 # 2) 1700000040000
                 TransactionStore.empty_store = Some minted_view)
    by reflexivity.
  assert (H2 : TokenMinter.store minted_view <> TransactionStore.empty_store)
    by discriminate.
  exact (conj H1 (conj H2
           (X22_history_only_after_clean_confirmation 1700000000000 slow_clock
              third_answer 5 sigA "MintAddr" "Owner" (5 # 2) 1700000040000
              TransactionStore.empty_store minted_view H1 H2))).
Defined.

(** ** The form patterns *)

Lemma digit_cases c :
  TokenForms.is_digit c = true ->
  In c ["0"; "1"; "2"; "3"; "4"; "5"; "6"; "7"; "8"; "9"]%char.
Proof.
  destruct c as [[] [] [] [] [] [] [] []]; intros H;
    try discriminate H; simpl; auto 12.
Qed.

Lemma low_digit_cases c :
  TokenForms.in_range 48 53 c = true ->
  In c ["0"; "1"; "2"; "3"; "4"; "5"]%char.
Proof.
  destruct c as [[] [] [] [] [] [] [] []]; intros H;
    try discriminate H; simpl; auto 12.
Qed.

Lemma all_chars_impl (p q : ascii -> bool) s :
  (forall c, p c = true -> q c = true) ->
  TokenForms.all_chars p s = true -> TokenForms.all_chars q s = true.
Proof.
  intros Hpq. induction s as [|c s IH]; simpl; [auto|].
  rewrite !andb_true_iff. intros [Hc Hs]. auto.
Qed.

(** X23: DECIMALS_PATTERN accepts exactly the decimal numerals of the
    integers 0 to 25, written without sign, space or leading zero; and
    every text SYMBOL_PATTERN accepts is also accepted by NAME_PATTERN. *)
Theorem X23_decimals_pattern_is_0_to_25 :
  (forall s : string,
     TokenForms.DECIMALS_PATTERN s = true <->
     exists n : Z, (0 <= n <= 25)%Z /\ s = pretty n) /\
  (forall s : string,
     TokenForms.SYMBOL_PATTERN s = true -> TokenForms.NAME_PATTERN s = true).
Proof.
  split.
  - intros s. split.
    + destruct s as [|c1 [|c2 [|c3 s]]]; simpl; try discriminate.
      * intros H. apply digit_cases in H. simpl in H.
        exists (Z.of_nat (nat_of_ascii c1) - 48)%Z.
        repeat (destruct H as [<-|H];
                [split; [vm_compute; split; discriminate
                        |vm_compute; reflexivity]|]).
        destruct H.
      * rewrite orb_true_iff, !andb_true_iff.
        intros [[H1 H2]|[H1 H2]]; apply Ascii.eqb_eq in H1; subst c1.
        -- apply digit_cases in H2. simpl in H2.
           exists (10 * (Z.of_nat (nat_of_ascii "1") - 48)
                   + (Z.of_nat (nat_of_ascii c2) - 48))%Z.
           repeat (destruct H2 as [<-|H2];
                   [split; [vm_compute; split; discriminate
                           |vm_compute; reflexivity]|]).
           destruct H2.
        -- apply low_digit_cases in H2. simpl in H2.
           exists (10 * (Z.of_nat (nat_of_ascii "2") - 48)
                   + (Z.of_nat (nat_of_ascii c2) - 48))%Z.
           repeat (destruct H2 as [<-|H2];
                   [split; [vm_compute; split; discriminate
                           |vm_compute; reflexivity]|]).
           destruct H2.
    + intros (n & Hn & ->).
      replace n with (Z.of_nat (Z.to_nat n)) by lia.
      assert (Hk : (Z.to_nat n <= 25)%nat) by lia.
      generalize dependent (Z.to_nat n). intros k Hk.
      do 26 (destruct k as [|k]; [vm_compute; reflexivity|]). lia.
  - intros s. unfold TokenForms.SYMBOL_PATTERN, TokenForms.NAME_PATTERN.
    rewrite !andb_true_iff, !Nat.leb_le. intros [[H1 H2] H3].
    repeat split; [lia|lia|].
    revert H3. apply all_chars_impl. intros c Hc. rewrite Hc. reflexivity.
Qed.

(** ** The history store from any restored state *)

Lemma take_app_take {A} (a b : list A) : forall n m, (n <= m)%nat ->
  take n (a ++ take m b) = take n (a ++ b).
Proof.
  induction a as [|x a IH]; intros n m Hnm; simpl.
  - rewrite take_take. f_equal. lia.
  - destruct n as [|n]; [reflexivity|]. simpl. f_equal. apply IH. lia.
Qed.

Lemma after_adds ts : forall t st,
  TransactionStore.transactions
    (TransactionStore.after (map TransactionStore.Add (t :: ts)) st)
  = take 50 (rev (t :: ts) ++ TransactionStore.transactions st).
Proof.
  induction ts as [|t' ts IH]; intros t st.
  - reflexivity.
  - change (TransactionStore.after
              (map TransactionStore.Add (t :: t' :: ts)) st)
      with (TransactionStore.after (map TransactionStore.Add (t' :: ts))
              (TransactionStore.addTransaction t st)).
    rewrite IH. unfold TransactionStore.addTransaction.
    cbn [TransactionStore.transactions].
    rewrite take_app_take by lia.
    f_equal. cbn [rev]. rewrite <- !app_assoc. reflexivity.
Qed.

Lemma after_bounded actions : forall st,
  (length (TransactionStore.transactions st) <= 50)%nat ->
  (length (TransactionStore.transactions
             (TransactionStore.after actions st)) <= 50)%nat.
Proof.
  induction actions as [|a actions IH]; intros st Hst; [exact Hst|].
  change (TransactionStore.after (a :: actions) st)
    with (TransactionStore.after actions (TransactionStore.apply st a)).
  apply IH. destruct a; simpl; [|lia].
  rewrite length_take. lia.
Qed.

(** X24: the store is persisted, so it may start from any restored list,
    also one longer than 50.  After the first action the list has at most
    50 entries and keeps that bound; after adding t1..tk (k >= 1) it is the
    first 50 of tk..t1 followed by the restored list; and once 50 or more
    transactions were added, none of the restored entries is left. *)
Theorem X24_history_from_restored_state :
  (forall a actions st,
     (length (TransactionStore.transactions
                (TransactionStore.after (a :: actions) st)) <= 50)%nat) /\
  (forall t ts st,
     TransactionStore.transactions
       (TransactionStore.after (map TransactionStore.Add (t :: ts)) st)
     = take 50 (rev (t :: ts) ++ TransactionStore.transactions st)) /\
  (forall t ts st,
     (50 <= length (t :: ts))%nat ->
     TransactionStore.transactions
       (TransactionStore.after (map TransactionStore.Add (t :: ts)) st)
     = take 50 (rev (t :: ts))).
Proof.
  split; [|split].
  - intros a actions st.
    change (TransactionStore.after (a :: actions) st)
      with (TransactionStore.after actions (TransactionStore.apply st a)).
    apply after_bounded. destruct a; simpl; [|lia].
    rewrite length_take. lia.
  - intros t ts st. apply after_adds.
  - intros t ts st Hlen. rewrite after_adds.
    apply take_app_le. rewrite length_rev. exact Hlen.
Qed.
